(** * dcm_to_png: a shallow embedding of [scripts/dcm_to_png.py]

    The script walks an input directory, decodes every [*.dcm] file,
    rescales its samples to 8 bits through a 1st/99th percentile window
    and saves the result as a PNG in a flat output directory.

    Modelling conventions
    - a float is the rational it denotes ([Q]): the cast of line 25 rounds
      to the nearest float32, the arithmetic of lines 27-29 is exact, the
      rounding of its intermediate results is not modelled. The theorems
      are about order, range, shape and saturation, which rounding keeps;
      none fixes an interior byte by the exact formula;
    - Python exceptions are the constructors of [exn]; a computation that
      can raise returns a [result];
    - file names are byte strings; [str.lower] acts on the ASCII letters,
      which is all the [".dcm"] suffix test can observe;
    - the image files on disk are a finite map from paths to contents; the
      input tree is a value the walk reads and never changes. *)

From Stdlib Require Import QArith Qround Qminmax Lqa ZArith Ascii String DecimalString.
From Stdlib Require Import Sorting.Sorted Sorting.Permutation.
From stdpp Require Import gmap strings list.

Set Default Proof Using "Type".

(** ** Exceptions and results *)

Inductive exn : Type :=
| IndexError          (* sys.argv too short, percentile of an empty array *)
| ImportError         (* pydicom or PIL missing *)
| OSError             (* os.makedirs failed *)
| InvalidDicomError   (* pydicom.dcmread / pixel_array failed *)
| ZeroDivisionError   (* division by a zero window width *)
| TypeError.          (* Image.fromarray cannot handle the array *)

Inductive result (A : Type) : Type :=
| Ok (a : A)
| Raise (e : exn).
Arguments Ok {A} a.
Arguments Raise {A} e.

Definition bind {A B : Type} (r : result A) (k : A -> result B) : result B :=
  match r with
  | Ok a => k a
  | Raise e => Raise e
  end.

Notation "'try!' x <- r ; k" := (bind r (fun x => k))
  (at level 10, x name, r at level 100, k at level 200,
   format "'[v' 'try!'  x  <-  r ; '/' k ']'").

(** ** N-dimensional arrays *)

#[warnings="-register-all"]
Inductive ndarray (A : Type) : Type :=
| Scalar (x : A)
| Nd (items : list (ndarray A)).
Arguments Scalar {A} x.
Arguments Nd {A} items.

Fixpoint nd_map {A B : Type} (f : A -> B) (a : ndarray A) : ndarray B :=
  match a with
  | Scalar x => Scalar (f x)
  | Nd items => Nd (List.map (nd_map f) items)
  end.

(** [a.ravel()]: the samples in row-major order. *)
Fixpoint ravel {A : Type} (a : ndarray A) : list A :=
  match a with
  | Scalar x => [x]
  | Nd items => List.concat (List.map ravel items)
  end.

(** [a.shape], read along the first item of every axis. *)
Fixpoint shape {A : Type} (a : ndarray A) : list nat :=
  match a with
  | Scalar _ => []
  | Nd items =>
      length items :: match items with
                      | [] => []
                      | a0 :: _ => shape a0
                      end
  end.

Definition ndim {A : Type} (a : ndarray A) : nat := length (shape a).

(** A 2-D sample grid (rows of columns) as an array. *)
Definition row_array {A : Type} (r : list A) : ndarray A := Nd (List.map Scalar r).
Definition grid {A : Type} (g : list (list A)) : ndarray A := Nd (List.map row_array g).

(** ** The NumPy kernels of the normalizer *)

Module Np.

Local Open Scope Q_scope.

(** The literal [1e-6] of the source. *)
Definition eps : Q := 1 # 1000000.

Definition minimum (x y : Q) : Q := if Qle_bool x y then x else y.
Definition maximum (x y : Q) : Q := if Qle_bool x y then y else x.

(** [np.clip(x, a_min, a_max)] is [minimum(maximum(x, a_min), a_max)]. *)
Definition clip (x a_min a_max : Q) : Q := minimum (maximum x a_min) a_max.

Fixpoint insert_sorted (x : Q) (l : list Q) : list Q :=
  match l with
  | [] => [x]
  | y :: t => if Qle_bool x y then x :: l else y :: insert_sorted x t
  end.

Definition sort (l : list Q) : list Q := List.fold_right insert_sorted [] l.

(** NumPy's [_lerp(a, b, t)]: [a + (b - a) * t], computed from the side of
    [b] when [t >= 0.5]. *)
Definition lerp (a b t : Q) : Q :=
  if Qle_bool (1 # 2) t then b - (b - a) * (1 - t) else a + (b - a) * t.

(** [np.percentile(a, q)] with the default method (linear): the array is
    flattened and ordered, the virtual index is [(n - 1) * q / 100], and the
    result interpolates between the two neighbouring order statistics, the
    upper one held at the last index. An empty array has no order statistic
    to index ([IndexError]). *)
Definition percentile (a : list Q) (q : Q) : result Q :=
  let arr := sort a in
  let n := Z.of_nat (length arr) in
  if (n =? 0)%Z then Raise IndexError
  else
    let virtual_index := inject_Z (n - 1) * (q / 100) in
    let previous_index := Qfloor virtual_index in
    let next_index := Z.min (previous_index + 1) (n - 1) in
    let gamma := virtual_index - inject_Z previous_index in
    let previous := List.nth (Z.to_nat previous_index) arr 0 in
    let next := List.nth (Z.to_nat next_index) arr 0 in
    Ok (lerp previous next gamma).

(** [x.astype(np.uint8)] for a float [x]: the fraction is dropped (rounding
    toward zero) and the integer is kept modulo 2^8. *)
Definition astype_uint8 (x : Q) : Z :=
  (Z.quot (Qnum x) (Zpos (Qden x))) mod 256.

(** [x.astype(np.float32)] for an integer sample: exact up to 24 bits,
    beyond that the nearest multiple of the unit in the last place, ties to
    the even significand. Pixel data have at most 64 bits, far below the
    float32 overflow threshold. *)
Definition astype_float32 (x : Z) : Q :=
  let a := Z.abs x in
  let e := Z.log2 a in
  if (e <? 24)%Z then inject_Z x
  else
    let ulp := (2 ^ (e - 23))%Z in
    let q := (a / ulp)%Z in
    let r := (a mod ulp)%Z in
    let half := (ulp / 2)%Z in
    let q' := if (r <? half)%Z then q
              else if (half <? r)%Z then (q + 1)%Z
              else if Z.even q then q else (q + 1)%Z in
    inject_Z (Z.sgn x * (q' * ulp)).

End Np.

(** ** The intensity normalizer (source lines 27-29) *)

Section Normalizer.

Local Open Scope Q_scope.

(** One sample through lines 28 and 29, for a window [lo, hi]. *)
Definition normalize_sample (lo hi : Q) (s : Q) : Z :=
  let px := Np.clip ((s - lo) / (hi - lo + Np.eps)) 0 1 in
  Np.astype_uint8 (px * 255).

(** [lo, hi = np.percentile(px, (1, 99))]. *)
Definition window (px : ndarray Q) : result (Q * Q) :=
  try! lo <- Np.percentile (ravel px) 1;
  try! hi <- Np.percentile (ravel px) 99;
  Ok (lo, hi).

(** Lines 27-29. The divisor [hi - lo + 1e-6] is one scalar for the whole
    array. NumPy signals a division by zero there (a RuntimeWarning that
    leaves inf or nan in the array, [FloatingPointError] under
    [np.seterr(divide="raise")]); here it is the exception
    [ZeroDivisionError], so that its absence is a statement about the
    result. *)
Definition normalize (px : ndarray Q) : result (ndarray Z) :=
  try! w <- window px;
  let '(lo, hi) := w in
  if Qeq_bool (hi - lo + Np.eps) 0 then Raise ZeroDivisionError
  else Ok (nd_map (normalize_sample lo hi) px).

End Normalizer.

(** ** Strings: the pieces of [str] and [os.path] the script calls *)

Module Str.

Local Open Scope Z_scope.

Definition lower_ascii (c : ascii) : ascii :=
  let n := Z.of_nat (nat_of_ascii c) in
  if (65 <=? n) && (n <=? 90) then ascii_of_nat (Z.to_nat (n + 32)) else c.

(** [s.lower()] *)
Fixpoint lower (s : string) : string :=
  match s with
  | EmptyString => EmptyString
  | String c s' => String (lower_ascii c) (lower s')
  end.

(** [s[i:j]] for [0 <= i]. *)
Definition slice (s : string) (i j : Z) : string :=
  substring (Z.to_nat i) (Z.to_nat (j - i)) s.

Definition len (s : string) : Z := Z.of_nat (String.length s).

(** [s.endswith(suffix)] *)
Definition endswith (s suffix : string) : bool :=
  (len suffix <=? len s) && String.eqb (slice s (len s - len suffix) (len s)) suffix.

(** [s.startswith(prefix)] *)
Definition startswith (s prefix : string) : bool :=
  (len prefix <=? len s) && String.eqb (slice s 0 (len prefix)) prefix.

Fixpoint rfind_from (s : string) (c : ascii) (i found : Z) : Z :=
  match s with
  | EmptyString => found
  | String a s' => rfind_from s' c (i + 1) (if Ascii.eqb a c then i else found)
  end.

(** [s.rfind(c)] for a one-character [c]: the last index, or -1. *)
Definition rfind (s : string) (c : ascii) : Z := rfind_from s c 0 (-1).

Fixpoint all_dots (s : string) : bool :=
  match s with
  | EmptyString => true
  | String a s' => Ascii.eqb a "." && all_dots s'
  end.

(** [os.path.splitext(p)] (posixpath, through genericpath._splitext): the
    extension starts at the last dot of the last component, unless only
    dots precede it there. *)
Definition splitext (p : string) : string * string :=
  let sepIndex := rfind p "/" in
  let dotIndex := rfind p "." in
  if sepIndex <? dotIndex then
    if all_dots (slice p (sepIndex + 1) dotIndex) then (p, EmptyString)
    else (slice p 0 dotIndex, slice p dotIndex (len p))
  else (p, EmptyString).

(** [os.path.join(a, b)] (posixpath, two arguments). *)
Definition join (a b : string) : string :=
  if startswith b "/" then b
  else if String.eqb a EmptyString || endswith a "/" then a +:+ b
  else a +:+ "/" +:+ b.

(** [str(n)] for a non-negative [int]. *)
Definition of_nat (n : nat) : string := NilEmpty.string_of_uint (Nat.to_uint n).

End Str.

(** ** The world outside the script *)

(** What [pydicom.dcmread(path).pixel_array] gives for a file: the decoded
    sample array, or the exception of a file that does not parse. *)
Definition dicom : Type := result (ndarray Z).

(** The input tree. A directory lists its entries in [os.scandir] order and
    may be unreadable. *)
#[warnings="-register-all"]
Inductive node : Type :=
| File (pixel_array : dicom)
| Dir (readable : bool) (entries : list (string * node)).

Definition nondirs (entries : list (string * node)) : list (string * dicom) :=
  flat_map (fun e => match e.2 with
                     | File d => [(e.1, d)]
                     | Dir _ _ => []
                     end) entries.

(** [os.walk(top)], top-down, with the default [onerror=None]: a directory
    that cannot be listed (absent, not a directory, unreadable) yields
    nothing and is not an error. Each yielded triple is kept as the pair of
    [root] and [files], every file name with what decoding it would give. *)
Fixpoint walk (top : string) (n : node) : list (string * list (string * dicom)) :=
  match n with
  | File _ => []
  | Dir false _ => []
  | Dir true entries =>
      (top, nondirs entries)
        :: List.concat (List.map (fun e => walk (Str.join top e.1) e.2) entries)
  end.

Definition os_walk (top : string) (at_top : option node) :
    list (string * list (string * dicom)) :=
  match at_top with
  | None => []
  | Some n => walk top n
  end.

Record world : Type := {
  deps_installed : bool;               (* the imports of lines 5-6 succeed *)
  tree_at : string -> option node;     (* what the path names, if anything *)
  makedirs_ok : string -> bool;        (* os.makedirs(dst, exist_ok=True) succeeds *)
  files0 : gmap string (ndarray Z)     (* image files present before the run *)
}.

(** ** Program state *)

Record state : Type := {
  files : gmap string (ndarray Z);       (* image files by path *)
  made : list string;                    (* directories ensured by os.makedirs *)
  saved : list (string * ndarray Z);     (* write operations, newest first *)
  count : nat;                           (* the variable [count] *)
  stdout : list string                   (* printed lines, oldest first *)
}.

Inductive outcome : Type :=
| Done (st : state)
| Raised (e : exn) (st : state).

Definition state_of (o : outcome) : state :=
  match o with
  | Done st => st
  | Raised _ st => st
  end.

Definition print (line : string) (st : state) : state :=
  {| files := files st; made := made st; saved := saved st;
     count := count st; stdout := stdout st ++ [line] |}.

(** [Image.fromarray(img)] for a uint8 array (Pillow's type map): one or two
    axes give mode L, a third axis of length 2, 3 or 4 gives LA, RGB or
    RGBA, anything else is refused. *)
Definition fromarray (img : ndarray Z) : result (ndarray Z) :=
  match shape img with
  | [] => Raise IndexError
  | [_] | [_; _] => Ok img
  | [_; _; c] => if (Nat.leb 2 c && Nat.leb c 4)%bool then Ok img else Raise TypeError
  | _ => Raise TypeError
  end.

(** [image.save(out_path)]: creates or replaces the file. The output root
    exists by then (line 13); the write itself is taken to succeed. *)
Definition save (out_path : string) (image : ndarray Z) (st : state) : state :=
  {| files := <[out_path := image]> (files st); made := made st;
     saved := (out_path, image) :: saved st;
     count := count st; stdout := stdout st |}.

(** [count += 1] *)
Definition incr_count (st : state) : state :=
  {| files := files st; made := made st; saved := saved st;
     count := S (count st); stdout := stdout st |}.

(** ** The script *)

(** Line 18: the file is a candidate. *)
Definition is_dcm (fn : string) : bool := Str.endswith (Str.lower fn) ".dcm".

(** Line 21. *)
Definition out_name (fn : string) : string := (Str.splitext fn).1 +:+ ".png".

(** Line 25. *)
Definition px_of (pixel_array : ndarray Z) : ndarray Q :=
  nd_map Np.astype_float32 pixel_array.

(** Lines 24-31, up to the image handed to [save]. *)
Definition to_image (d : dicom) : result (ndarray Z) :=
  try! pixel_array <- d;
  try! img <- normalize (px_of pixel_array);
  fromarray img.

(** The body of the inner loop, lines 18-32. *)
Definition convert_file (dst root : string) (f : string * dicom) (st : state) : outcome :=
  let fn := f.1 in
  if negb (is_dcm fn) then Done st
  else
    let in_path := Str.join root fn in
    let out_path := Str.join dst (out_name fn) in
    match to_image f.2 with
    | Raise e => Raised e st
    | Ok image => Done (incr_count (save out_path image st))
    end.

(** A [for] loop whose body may raise. *)
Fixpoint for_each {A : Type} (body : A -> state -> outcome) (l : list A) (st : state) :
    outcome :=
  match l with
  | [] => Done st
  | x :: l' =>
      match body x st with
      | Done st' => for_each body l' st'
      | Raised e st' => Raised e st'
      end
  end.

(** Lines 16-32. *)
Definition run (dst : string) (walked : list (string * list (string * dicom)))
    (st : state) : outcome :=
  for_each (fun t => for_each (convert_file dst t.1) t.2) walked st.

(** The line of line 34. *)
Definition summary (count : nat) (dst : string) : string :=
  "Converted " +:+ Str.of_nat count +:+ " DICOMs to PNG in: " +:+ dst.

Definition missing_deps : string :=
  "Missing deps. Install with: python3 -m pip install --user pydicom pillow numpy".

Definition boot (w : world) : state :=
  {| files := files0 w; made := []; saved := []; count := 0; stdout := [] |}.

(** Lines 13-15: the output root is ensured, then [count = 0]. *)
Definition start (w : world) (dst : string) : state :=
  {| files := files0 w; made := [dst]; saved := []; count := 0; stdout := [] |}.

(** The whole script, for [sys.argv = argv]. *)
Definition main (argv : list string) (w : world) : outcome :=
  if negb (deps_installed w) then Raised ImportError (print missing_deps (boot w))
  else
    match argv !! 1%nat with
    | None => Raised IndexError (boot w)
    | Some src =>
        match argv !! 2%nat with
        | None => Raised IndexError (boot w)
        | Some dst =>
            if negb (makedirs_ok w dst) then Raised OSError (boot w)
            else
              match run dst (os_walk src (tree_at w src)) (start w dst) with
              | Done st => Done (print (summary (count st) dst) st)
              | Raised e st => Raised e st
              end
        end
    end.

(** ** The loops, one statement at a time *)




(** * Definitions used by the statements *)

(** ** The specification's vocabulary *)

Section Vocabulary.

Local Open Scope Q_scope.

(** The first frame of a multi-frame array. *)
Definition first_frame {A : Type} (a : ndarray A) : ndarray A :=
  match a with
  | Nd (frame :: _) => frame
  | _ => a
  end.

End Vocabulary.

(** ** Names for the parts of [Np.percentile] *)

Section PercentileParts.

Local Open Scope Q_scope.

(** The virtual index of the [q]-th percentile. *)
Definition vindex (a : list Q) (q : Q) : Q :=
  inject_Z (Z.of_nat (length a) - 1) * (q / 100).

(** The [k]-th order statistic. *)
Definition order_stat (a : list Q) (k : Z) : Q :=
  List.nth (Z.to_nat k) (Np.sort a) 0.

(** The index of the upper neighbour. *)
Definition next_index (a : list Q) (q : Q) : Z :=
  Z.min (Qfloor (vindex a q) + 1) (Z.of_nat (length a) - 1).

End PercentileParts.

(** ** The batch as one list of items *)

(** The files of a walk in the order the nested loops of lines 16-17 visit
    them, each with the [root] it was found under. *)
Definition work (walked : list (string * list (string * dicom))) :
    list (string * (string * dicom)) :=
  flat_map (fun t => List.map (fun f => (t.1, f)) t.2) walked.

(** The loop body on an item of [work]. *)
Definition convert_item (dst : string) (it : string * (string * dicom)) :
    state -> outcome :=
  convert_file dst it.1 it.2.

(** The item passes the test of line 18. *)
Definition candidate (it : string * (string * dicom)) : bool := is_dcm it.2.1.

(** The path an item is written to, when it is a candidate. *)
Definition target (dst : string) (it : string * (string * dicom)) : option string :=
  if is_dcm it.2.1 then Some (Str.join dst (out_name it.2.1)) else None.

(** The item is skipped or converts without an exception. *)
Definition can_convert (it : string * (string * dicom)) : bool :=
  negb (is_dcm it.2.1) ||
  match to_image it.2.2 with
  | Ok _ => true
  | Raise _ => false
  end.

(** The input root can be listed. *)
Definition listable (at_top : option node) : bool :=
  match at_top with
  | Some (Dir true _) => true
  | _ => false
  end.

(** ** Sample inputs *)

Section Samples.

Local Open Scope Q_scope.

Definition flat_grid : list (list Q) := [[7; 7; 7]; [7; 7; 7]].

Definition ramp_grid : list (list Q) := [[0; 10]; [15; 20]].

End Samples.

Definition sample_grid : list (list Z) := [[0; 10; 12]; [15; 20; 4000]]%Z.

Definition scan_a : ndarray Z := grid [[0; 10]; [15; 20]]%Z.

Definition scan_b : ndarray Z := grid [[0; 1]; [2; 40]]%Z.

(** Two frames of one row and five columns. *)
Definition cine : ndarray Z :=
  Nd [grid [[0; 1; 2; 3; 4]]; grid [[100; 200; 300; 400; 500]]]%Z.

(** A world with one input tree and an empty, creatable output root. *)
Definition world_of (src : string) (t : option node) : world :=
  {| deps_installed := true;
     tree_at := fun p => if String.eqb p src then t else None;
     makedirs_ok := fun _ => true;
     files0 := ∅ |}.

Definition argv_in_out : list string := ["dcm_to_png.py"; "in"; "out"].

(** A file that does not parse, listed before one that does. *)
Definition corrupt_tree : node :=
  Dir true [("a.dcm", File (Raise InvalidDicomError)); ("b.dcm", File (Ok scan_a))].

(** A file that does not parse, between two that do. *)
Definition late_corrupt_tree : node :=
  Dir true [("a.dcm", File (Ok scan_a)); ("b.dcm", File (Raise InvalidDicomError));
            ("c.dcm", File (Ok scan_b))].

(** A file that does not parse in the root, listed before the two
    subdirectories with a file named [x.dcm]. *)
Definition corrupt_then_collide_tree : node :=
  Dir true [("0.dcm", File (Raise InvalidDicomError));
            ("a", Dir true [("x.dcm", File (Ok scan_a))]);
            ("b", Dir true [("x.dcm", File (Ok scan_b))])].

(** The second [x.dcm] is a multi-frame file. *)
Definition collide_multiframe_tree : node :=
  Dir true [("a", Dir true [("x.dcm", File (Ok scan_a))]);
            ("b", Dir true [("x.dcm", File (Ok cine))])].

(** A file that does not parse, after the two files named [x.dcm]. *)
Definition collide_then_corrupt_tree : node :=
  Dir true [("a", Dir true [("x.dcm", File (Ok scan_a))]);
            ("b", Dir true [("x.dcm", File (Ok scan_b))]);
            ("c", Dir true [("y.dcm", File (Raise InvalidDicomError))])].

(** Two subdirectories, each with a file named [x.dcm]. *)
Definition collide_tree : node :=
  Dir true [("a", Dir true [("x.dcm", File (Ok scan_a))]);
            ("b", Dir true [("x.dcm", File (Ok scan_b))])].

(** ** The loop as a fold *)

(** The writes a loop over [items] performs, oldest first: one per
    candidate, up to the first candidate that raises. *)
Fixpoint writes_of (dst : string) (items : list (string * (string * dicom))) :
    list (string * ndarray Z) :=
  match items with
  | [] => []
  | it :: rest =>
      if candidate it then
        match to_image it.2.2 with
        | Ok image => (Str.join dst (out_name it.2.1), image) :: writes_of dst rest
        | Raise _ => []
        end
      else writes_of dst rest
  end.

(** The exception of the first candidate that raises, if any. *)
Fixpoint first_error (items : list (string * (string * dicom))) : option exn :=
  match items with
  | [] => None
  | it :: rest =>
      if candidate it then
        match to_image it.2.2 with
        | Ok _ => first_error rest
        | Raise e => Some e
        end
      else first_error rest
  end.

(** The files after a sequence of writes. *)
Definition replay (writes : list (string * ndarray Z)) (m : gmap string (ndarray Z)) :
    gmap string (ndarray Z) :=
  foldl (fun acc kv => <[kv.1 := kv.2]> acc) m writes.

(** The image of the last write to [path], if any. *)
Fixpoint last_write (path : string) (writes : list (string * ndarray Z)) :
    option (ndarray Z) :=
  match writes with
  | [] => None
  | kv :: rest =>
      match last_write path rest with
      | Some image => Some image
      | None => if decide (kv.1 = path) then Some kv.2 else None
      end
  end.

Definition finish (err : option exn) (st : state) : outcome :=
  match err with
  | None => Done st
  | Some e => Raised e st
  end.

(** The same world, with the image files a run has left. *)
Definition rerun (w : world) (fin : state) : world :=
  {| deps_installed := deps_installed w;
     tree_at := tree_at w;
     makedirs_ok := makedirs_ok w;
     files0 := files fin |}.

(** A readable root with an unreadable subdirectory between two files. *)
Definition locked_tree : node :=
  Dir true [("a.dcm", File (Ok scan_a));
            ("private", Dir false [("hidden.dcm", File (Ok scan_b))]);
            ("notes.txt", File (Raise InvalidDicomError));
            ("B.DCM", File (Ok scan_b))].

(** ** The counter and the steps *)



(** * Properties *)

Lemma Ok_inj {A : Type} (a b : A) : Ok a = Ok b -> a = b.
Proof. congruence. Qed.

(** ** Arrays *)

Lemma ravel_grid {A : Type} (g : list (list A)) : ravel (grid g) = List.concat g.
Proof.
  unfold grid, row_array. simpl. f_equal.
  induction g as [|r g IH]; simpl; [reflexivity|].
  rewrite IH. f_equal.
  induction r as [|x r IHr]; simpl; congruence.
Qed.

Lemma nd_map_grid {A B : Type} (f : A -> B) (g : list (list A)) :
  nd_map f (grid g) = grid (List.map (List.map f) g).
Proof.
  unfold grid, row_array. simpl. f_equal.
  induction g as [|r g IH]; simpl; [reflexivity|].
  rewrite IH. do 2 f_equal.
  induction r as [|x r IHr]; simpl; congruence.
Qed.

Lemma ndarray_nested_ind {A : Type} (P : ndarray A -> Prop) :
  (forall x, P (Scalar x)) ->
  (forall items, List.Forall P items -> P (Nd items)) ->
  forall a, P a.
Proof.
  intros Hs Hn. fix IH 1. intros [x|items]; [apply Hs|apply Hn].
  induction items as [|a items IHitems]; constructor; [apply IH|exact IHitems].
Qed.

Lemma shape_nd_map {A B : Type} (f : A -> B) (a : ndarray A) :
  shape (nd_map f a) = shape a.
Proof.
  induction a as [x|items IH] using ndarray_nested_ind; simpl; [reflexivity|].
  rewrite List.length_map. f_equal.
  destruct IH as [|a items Ha _]; simpl; [reflexivity|exact Ha].
Qed.

Lemma ravel_nd_map {A B : Type} (f : A -> B) (a : ndarray A) :
  ravel (nd_map f a) = List.map f (ravel a).
Proof.
  induction a as [x|items IH] using ndarray_nested_ind; simpl; [reflexivity|].
  rewrite List.concat_map, !List.map_map. f_equal.
  induction IH as [|a items Ha _ IHitems]; simpl; [reflexivity|].
  now rewrite Ha, IHitems.
Qed.

(** ** The cast of line 25 *)

Lemma astype_float32_exact (x : Z) :
  (Z.abs x < 2 ^ 24)%Z -> Np.astype_float32 x = inject_Z x.
Proof.
  intros H. unfold Np.astype_float32.
  assert (Hlog : (Z.log2 (Z.abs x) < 24)%Z).
  { destruct (Z.eq_dec (Z.abs x) 0%Z) as [->|Hne]; [reflexivity|].
    apply Z.log2_lt_pow2; lia. }
  apply Z.ltb_lt in Hlog. now rewrite Hlog.
Qed.

(** Above 24 bits neighbouring integers merge. *)
Lemma astype_float32_rounds :
  Np.astype_float32 16777217 = inject_Z 16777216 /\
  Np.astype_float32 16777219 = inject_Z 16777220 /\
  Np.astype_float32 (-4294967295) = inject_Z (-4294967296).
Proof. repeat split. Qed.

(** ** Order statistics *)

Section OrderStatistics.

Local Open Scope Q_scope.

Lemma insert_sorted_perm (x : Q) (l : list Q) :
  Permutation (Np.insert_sorted x l) (x :: l).
Proof.
  induction l as [|y l IH]; simpl; [reflexivity|].
  destruct (Qle_bool x y); [reflexivity|].
  rewrite IH. apply perm_swap.
Qed.

Lemma sort_perm (l : list Q) : Permutation (Np.sort l) l.
Proof.
  induction l as [|x l IH]; simpl; [reflexivity|].
  rewrite insert_sorted_perm. now constructor.
Qed.

Lemma sort_length (l : list Q) : length (Np.sort l) = length l.
Proof. apply Permutation_length, sort_perm. Qed.

Lemma insert_sorted_sorted (x : Q) (l : list Q) :
  StronglySorted Qle l -> StronglySorted Qle (Np.insert_sorted x l).
Proof.
  induction 1 as [|y l Hs IH Hy]; simpl.
  - repeat constructor.
  - destruct (Qle_bool x y) eqn:E.
    + apply Qle_bool_iff in E.
      constructor; [now constructor|].
      constructor; [exact E|].
      eapply List.Forall_impl; [|exact Hy].
      intros z Hz. now apply Qle_trans with y.
    + assert (Hyx : y <= x).
      { apply Qlt_le_weak, Qnot_le_lt. intros H. apply Qle_bool_iff in H. congruence. }
      constructor; [exact IH|].
      eapply Permutation_Forall; [symmetry; apply insert_sorted_perm|].
      now constructor.
Qed.

Lemma sort_sorted (l : list Q) : StronglySorted Qle (Np.sort l).
Proof.
  induction l as [|x l IH]; simpl; [constructor|].
  now apply insert_sorted_sorted.
Qed.

Lemma sorted_nth_le (l : list Q) (i j : nat) :
  StronglySorted Qle l -> (i <= j)%nat -> (j < length l)%nat ->
  List.nth i l 0 <= List.nth j l 0.
Proof.
  intros Hs. revert i j.
  induction Hs as [|x l Hs IH Hx]; intros i j Hij Hj; simpl in Hj; [lia|].
  destruct i as [|i], j as [|j]; simpl; try lia.
  - apply Qle_refl.
  - rewrite List.Forall_forall in Hx. apply Hx, List.nth_In. lia.
  - apply IH; lia.
Qed.

Lemma lerp_eq (a b t : Q) : Np.lerp a b t == a + (b - a) * t.
Proof. unfold Np.lerp. destruct (Qle_bool (1 # 2) t); ring. Qed.

Lemma lerp_between (a b t : Q) :
  a <= b -> 0 <= t -> t <= 1 -> a <= Np.lerp a b t /\ Np.lerp a b t <= b.
Proof. intros Hab H0 H1. rewrite lerp_eq. split; nra. Qed.

Lemma lerp_mono (a b t u : Q) : a <= b -> t <= u -> Np.lerp a b t <= Np.lerp a b u.
Proof. intros Hab Htu. rewrite !lerp_eq. nra. Qed.

End OrderStatistics.

(** ** Percentiles *)

Section Percentile.

Local Open Scope Q_scope.

Lemma percentile_nonempty (a : list Q) (q : Q) :
  a <> [] ->
  Np.percentile a q =
    Ok (Np.lerp (order_stat a (Qfloor (vindex a q)))
                (order_stat a (next_index a q))
                (vindex a q - inject_Z (Qfloor (vindex a q)))).
Proof.
  intros Hne. unfold Np.percentile, order_stat, next_index, vindex.
  cbv zeta. rewrite sort_length.
  destruct (Z.eqb_spec (Z.of_nat (length a)) 0) as [E|_]; [|reflexivity].
  destruct a; [congruence|simpl in E; lia].
Qed.

Lemma percentile_empty (q : Q) : Np.percentile [] q = Raise IndexError.
Proof. reflexivity. Qed.

Lemma vindex_range (a : list Q) (q : Q) :
  a <> [] -> 0 <= q -> q <= 100 ->
  0 <= vindex a q /\ vindex a q <= inject_Z (Z.of_nat (length a) - 1).
Proof.
  intros Hne H0 H1. unfold vindex.
  assert (HN : 0 <= inject_Z (Z.of_nat (length a) - 1)).
  { change 0 with (inject_Z 0). rewrite <- Zle_Qle.
    destruct a; [congruence|simpl length; lia]. }
  set (N := inject_Z _) in *.
  assert (Hq : 0 <= q / 100 /\ q / 100 <= 1).
  { split.
    - apply Qle_shift_div_l; [reflexivity|]. lra.
    - apply Qle_shift_div_r; [reflexivity|]. lra. }
  destruct Hq. split; nra.
Qed.

Lemma vindex_mono (a : list Q) (q q' : Q) :
  a <> [] -> q <= q' -> vindex a q <= vindex a q'.
Proof.
  intros Hne Hq. unfold vindex.
  assert (HN : 0 <= inject_Z (Z.of_nat (length a) - 1)).
  { change 0 with (inject_Z 0). rewrite <- Zle_Qle.
    destruct a; [congruence|simpl length; lia]. }
  set (N := inject_Z _) in *.
  assert (q / 100 <= q' / 100).
  { unfold Qdiv. apply Qmult_le_compat_r; [exact Hq|]. discriminate. }
  nra.
Qed.

Lemma floor_range (x : Q) (n : Z) :
  0 <= x -> x <= inject_Z n -> (0 <= Qfloor x <= n)%Z.
Proof.
  intros H0 Hn. split.
  - rewrite <- (Qfloor_Z 0). now apply Qfloor_resp_le.
  - rewrite <- (Qfloor_Z n). now apply Qfloor_resp_le.
Qed.

Lemma gamma_range (x : Q) : 0 <= x - inject_Z (Qfloor x) /\ x - inject_Z (Qfloor x) < 1.
Proof.
  pose proof (Qfloor_le x). pose proof (Qlt_floor x) as Hlt.
  rewrite inject_Z_plus in Hlt. change (inject_Z 1) with 1 in Hlt.
  split; lra.
Qed.

(** The percentile lies between the two order statistics it interpolates. *)
Lemma percentile_between (a : list Q) (q v : Q) :
  a <> [] -> 0 <= q -> q <= 100 -> Np.percentile a q = Ok v ->
  order_stat a (Qfloor (vindex a q)) <= v /\ v <= order_stat a (next_index a q).
Proof.
  intros Hne H0 H1 Hv. rewrite percentile_nonempty in Hv by exact Hne.
  apply Ok_inj in Hv. subst v.
  destruct (vindex_range a q Hne H0 H1) as [Hv0 HvN].
  pose proof (floor_range _ _ Hv0 HvN) as Hj.
  destruct (gamma_range (vindex a q)) as [Hg0 Hg1].
  apply lerp_between; [|exact Hg0|apply Qlt_le_weak, Hg1].
  unfold order_stat, next_index.
  clear -Hj. generalize dependent (Qfloor (vindex a q)). intros j Hj.
  apply sorted_nth_le; [apply sort_sorted| |rewrite sort_length]; lia.
Qed.

(** Percentiles are monotone in the rank asked for. *)
Lemma percentile_mono (a : list Q) (q q' v v' : Q) :
  a <> [] -> 0 <= q -> q <= q' -> q' <= 100 ->
  Np.percentile a q = Ok v -> Np.percentile a q' = Ok v' -> v <= v'.
Proof.
  intros Hne H0 Hqq H1 Hv Hv'.
  assert (Hq1 : q <= 100) by lra. assert (Hq0 : 0 <= q') by lra.
  destruct (percentile_between a q v Hne H0 Hq1 Hv) as [_ Hup].
  destruct (percentile_between a q' v' Hne Hq0 H1 Hv') as [Hlow _].
  destruct (vindex_range a q Hne H0 Hq1) as [Hv0 HvN].
  destruct (vindex_range a q' Hne Hq0 H1) as [Hv0' HvN'].
  pose proof (floor_range _ _ Hv0 HvN) as Hj.
  pose proof (floor_range _ _ Hv0' HvN') as Hj'.
  pose proof (vindex_mono a q q' Hne Hqq) as Hmono.
  pose proof (Qfloor_resp_le _ _ Hmono) as Hjj.
  destruct (Z.eq_dec (Qfloor (vindex a q)) (Qfloor (vindex a q'))) as [E|NE].
  - rewrite percentile_nonempty in Hv, Hv' by exact Hne.
    apply Ok_inj in Hv, Hv'. subst v v'.
    unfold next_index. rewrite <- E.
    apply lerp_mono.
    + unfold order_stat. clear -Hj.
      generalize dependent (Qfloor (vindex a q)). intros j Hj.
      apply sorted_nth_le; [apply sort_sorted| |rewrite sort_length]; lia.
    + lra.
  - apply Qle_trans with (order_stat a (next_index a q)); [exact Hup|].
    apply Qle_trans with (order_stat a (Qfloor (vindex a q'))); [|exact Hlow].
    unfold order_stat, next_index. clear -Hj Hj' Hjj NE.
    generalize dependent (Qfloor (vindex a q)).
    generalize dependent (Qfloor (vindex a q')). intros j' Hj' j Hj Hjj NE.
    apply sorted_nth_le; [apply sort_sorted| |rewrite sort_length]; lia.
Qed.

End Percentile.

(** ** One sample through the window *)

Section Sample.

Local Open Scope Q_scope.

Lemma maximum_spec (x y : Q) : Np.maximum x y == Qmax x y.
Proof.
  unfold Np.maximum. destruct (Qle_bool x y) eqn:E.
  - apply Qle_bool_iff in E. symmetry. now apply Q.max_r.
  - symmetry. apply Q.max_l. apply Qlt_le_weak, Qnot_le_lt.
    intros H. apply Qle_bool_iff in H. congruence.
Qed.

Lemma minimum_spec (x y : Q) : Np.minimum x y == Qmin x y.
Proof.
  unfold Np.minimum. destruct (Qle_bool x y) eqn:E.
  - apply Qle_bool_iff in E. symmetry. now apply Q.min_l.
  - symmetry. apply Q.min_r. apply Qlt_le_weak, Qnot_le_lt.
    intros H. apply Qle_bool_iff in H. congruence.
Qed.

Lemma clip_range (x : Q) : 0 <= Np.clip x 0 1 /\ Np.clip x 0 1 <= 1.
Proof.
  unfold Np.clip. rewrite minimum_spec, maximum_spec. split.
  - apply Q.min_glb; [apply Q.le_max_r|discriminate].
  - apply Q.le_min_r.
Qed.

Lemma clip_mono (x y : Q) : x <= y -> Np.clip x 0 1 <= Np.clip y 0 1.
Proof.
  intros H. unfold Np.clip. rewrite !minimum_spec, !maximum_spec.
  apply Q.min_le_compat_r, Q.max_le_compat_r, H.
Qed.

(** Inside the unit interval nothing is clipped. *)
Lemma clip_inside (x : Q) : 0 <= x -> x <= 1 -> Np.clip x 0 1 == x.
Proof.
  intros H0 H1. unfold Np.clip. rewrite minimum_spec, maximum_spec.
  rewrite Q.max_l by exact H0. now apply Q.min_l.
Qed.

(** On [0, 255] the cast to uint8 is the integer part. *)
Lemma astype_uint8_floor (y : Q) : 0 <= y -> y <= 255 -> Np.astype_uint8 y = Qfloor y.
Proof.
  intros H0 H255.
  assert (Hr : (0 <= Qfloor y <= 255)%Z) by now apply floor_range.
  unfold Np.astype_uint8. destruct y as [n d]. simpl in *.
  assert (Hn : (0 <= n)%Z).
  { unfold Qle in H0. simpl in H0. lia. }
  rewrite Z.quot_div_nonneg by lia.
  apply Z.mod_small. lia.
Qed.

Lemma scaled_range (x : Q) : 0 <= x -> x <= 1 -> 0 <= x * 255 /\ x * 255 <= 255.
Proof. intros. split; lra. Qed.

Lemma normalize_sample_floor (lo hi s : Q) :
  normalize_sample lo hi s =
    Qfloor (Np.clip ((s - lo) / (hi - lo + Np.eps)) 0 1 * 255).
Proof.
  unfold normalize_sample. cbv zeta.
  destruct (clip_range ((s - lo) / (hi - lo + Np.eps))) as [H0 H1].
  destruct (scaled_range _ H0 H1). now apply astype_uint8_floor.
Qed.

(** Every output sample is an 8-bit value. *)
Lemma normalize_sample_range (lo hi s : Q) : (0 <= normalize_sample lo hi s <= 255)%Z.
Proof.
  rewrite normalize_sample_floor.
  destruct (clip_range ((s - lo) / (hi - lo + Np.eps))) as [H0 H1].
  destruct (scaled_range _ H0 H1). now apply floor_range.
Qed.

Lemma eps_pos : 0 < Np.eps.
Proof. reflexivity. Qed.

Lemma ratio_mono (lo hi a b : Q) :
  lo <= hi -> b <= a ->
  (b - lo) / (hi - lo + Np.eps) <= (a - lo) / (hi - lo + Np.eps).
Proof.
  intros Hw Hab. unfold Qdiv. apply Qmult_le_compat_r; [lra|].
  apply Qlt_le_weak, Qinv_lt_0_compat. pose proof eps_pos. lra.
Qed.

(** The per-sample map is monotone for every window. *)
Lemma normalize_sample_mono (lo hi a b : Q) :
  lo <= hi -> b <= a -> (normalize_sample lo hi b <= normalize_sample lo hi a)%Z.
Proof.
  intros Hw Hab. rewrite !normalize_sample_floor.
  apply Qfloor_resp_le.
  pose proof (clip_mono _ _ (ratio_mono lo hi a b Hw Hab)). lra.
Qed.

(** A sample at the lower bound of a zero-width window maps to 0. *)
Lemma normalize_sample_flat (lo hi s : Q) :
  lo == hi -> s == lo -> normalize_sample lo hi s = 0%Z.
Proof.
  intros Hw Hs. rewrite normalize_sample_floor.
  assert (E : (s - lo) / (hi - lo + Np.eps) == 0).
  { rewrite Hs. unfold Qdiv. ring. }
  rewrite <- (Qfloor_Z 0). apply Qfloor_comp.
  rewrite clip_inside by lra. change (inject_Z 0) with 0. lra.
Qed.

End Sample.

(** ** The normalizer on a whole array *)

Section WholeArray.

Local Open Scope Q_scope.

Lemma window_nonempty (px : ndarray Q) :
  ravel px <> [] ->
  exists lo hi, window px = Ok (lo, hi) /\
    Np.percentile (ravel px) 1 = Ok lo /\ Np.percentile (ravel px) 99 = Ok hi /\
    lo <= hi.
Proof.
  intros Hne.
  pose proof (percentile_nonempty (ravel px) 1 Hne) as H1.
  pose proof (percentile_nonempty (ravel px) 99 Hne) as H99.
  unfold window. rewrite H1, H99. simpl.
  eexists _, _. repeat split.
  eapply (percentile_mono (ravel px) 1 99); [exact Hne|lra..|exact H1|exact H99].
Qed.

Lemma normalize_nonempty (px : ndarray Q) :
  ravel px <> [] ->
  exists lo hi, window px = Ok (lo, hi) /\
    Np.percentile (ravel px) 1 = Ok lo /\ Np.percentile (ravel px) 99 = Ok hi /\
    lo <= hi /\
    normalize px = Ok (nd_map (normalize_sample lo hi) px).
Proof.
  intros Hne. destruct (window_nonempty px Hne) as (lo & hi & Hw & H1 & H99 & Hle).
  exists lo, hi. repeat (split; [assumption|]).
  unfold normalize. rewrite Hw. simpl.
  destruct (Qeq_bool (hi - lo + Np.eps) 0) eqn:E; [|reflexivity].
  apply Qeq_bool_iff in E. pose proof eps_pos. lra.
Qed.

Lemma normalize_empty (px : ndarray Q) :
  ravel px = [] -> normalize px = Raise IndexError.
Proof. intros E. unfold normalize, window. rewrite E. reflexivity. Qed.

(** The divisor [hi - lo + 1e-6] is never zero, whatever the array. *)
Lemma normalize_no_zero_division (px : ndarray Q) :
  normalize px <> Raise ZeroDivisionError.
Proof.
  destruct (ravel px) eqn:E.
  - rewrite (normalize_empty px E). discriminate.
  - assert (Hne : ravel px <> []) by (rewrite E; discriminate).
    destruct (normalize_nonempty px Hne) as (lo & hi & _ & _ & _ & _ & ->).
    discriminate.
Qed.

End WholeArray.

(** ** Claims about the normalizer *)

Section NormalizerClaims.

Local Open Scope Q_scope.

Lemma map_map_ext_Forall {A B : Type} (f f' : A -> B) (g : list (list A)) :
  List.Forall (List.Forall (fun s => f s = f' s)) g ->
  List.map (List.map f) g = List.map (List.map f') g.
Proof.
  induction 1 as [|r g Hr _ IH]; simpl; [reflexivity|].
  rewrite IH. f_equal.
  induction Hr as [|x r Hx _ IHr]; simpl; congruence.
Qed.

Lemma concat_map_map {A B : Type} (f : A -> B) (g : list (list A)) :
  List.concat (List.map (List.map f) g) = List.map f (List.concat g).
Proof. symmetry. apply List.concat_map. Qed.

Lemma Forall_concat_rows {A : Type} (P : A -> Prop) (g : list (list A)) :
  List.Forall (List.Forall P) g -> List.Forall P (List.concat g).
Proof.
  induction 1 as [|r g Hr _ IH]; simpl; [constructor|].
  apply List.Forall_app. now split.
Qed.

(** C2: the image the normalizer returns for a source grid has as many rows
    as the source, and every row has as many columns as the source row. *)
Theorem normalized_dimensions (g : list (list Z)) :
  List.concat g <> [] ->
  exists img : list (list Z),
    normalize (px_of (grid g)) = Ok (grid img) /\
    length img = length g /\
    List.Forall2 (fun row out => length out = length row) g img /\
    shape (grid img) = shape (grid g).
Proof.
  intros Hne. unfold px_of. rewrite nd_map_grid.
  set (px := List.map (List.map Np.astype_float32) g).
  assert (Hpx : ravel (grid px) <> []).
  { rewrite ravel_grid. unfold px. rewrite concat_map_map.
    destruct (List.concat g); [congruence|discriminate]. }
  destruct (normalize_nonempty (grid px) Hpx) as (lo & hi & _ & _ & _ & _ & Hn).
  rewrite nd_map_grid in Hn. unfold px in Hn. rewrite List.map_map in Hn.
  eexists. split; [exact Hn|]. clear.
  split; [apply List.length_map|]. split.
  - induction g as [|r g IH]; simpl; constructor; [|exact IH].
    now rewrite !List.length_map.
  - unfold grid, row_array. simpl. rewrite !List.length_map. f_equal.
    destruct g as [|r g]; simpl; [reflexivity|].
    rewrite !List.length_map. f_equal. now destruct r.
Qed.

Lemma normalized_dimensions_witness :
  List.concat sample_grid <> [] /\
  exists img : list (list Z),
    normalize (px_of (grid sample_grid)) = Ok (grid img) /\
    length img = length sample_grid /\
    List.Forall2 (fun row out => length out = length row) sample_grid img /\
    shape (grid img) = shape (grid sample_grid).
Proof.
  split; [discriminate|].
  apply (normalized_dimensions sample_grid). discriminate.
Defined.

Lemma order_stat_constant (a : list Q) (c : Q) (k : Z) :
  List.Forall (fun s => s == c) a -> (0 <= k < Z.of_nat (length a))%Z ->
  order_stat a k == c.
Proof.
  intros Hc Hk. unfold order_stat.
  assert (Hs : List.Forall (fun s => s == c) (Np.sort a)).
  { eapply Permutation_Forall; [symmetry; apply sort_perm|exact Hc]. }
  rewrite List.Forall_forall in Hs. apply Hs, List.nth_In.
  rewrite sort_length. lia.
Qed.

Lemma percentile_constant (a : list Q) (c q v : Q) :
  a <> [] -> 0 <= q -> q <= 100 ->
  List.Forall (fun s => s == c) a -> Np.percentile a q = Ok v -> v == c.
Proof.
  intros Hne H0 H1 Hc Hv.
  destruct (percentile_between a q v Hne H0 H1 Hv) as [Hlow Hup].
  destruct (vindex_range a q Hne H0 H1) as [Hv0 HvN].
  pose proof (floor_range _ _ Hv0 HvN) as Hj.
  unfold next_index in Hup.
  rewrite order_stat_constant in Hlow, Hup by (try exact Hc; lia).
  lra.
Qed.

(** C3: a grid whose samples all have one value [c] is normalized without
    any error, in particular without a division by zero, and the image
    returned is constant: 0 everywhere. *)
Theorem constant_grid_normalizes (g : list (list Q)) (c : Q) :
  List.concat g <> [] ->
  List.Forall (List.Forall (fun s => s == c)) g ->
  normalize (grid g) = Ok (grid (List.map (List.map (fun _ => 0%Z)) g)).
Proof.
  intros Hne Hc. rewrite <- ravel_grid in Hne.
  destruct (normalize_nonempty (grid g) Hne) as (lo & hi & _ & H1 & H99 & _ & Hn).
  rewrite ravel_grid in *.
  pose proof (Forall_concat_rows _ _ Hc) as Hall.
  assert (Hlo : lo == c) by (eapply percentile_constant; try eassumption; lra).
  assert (Hhi : hi == c) by (eapply percentile_constant; try eassumption; lra).
  rewrite Hn, nd_map_grid. do 2 f_equal.
  apply map_map_ext_Forall.
  eapply List.Forall_impl; [|exact Hc]. intros r Hr.
  eapply List.Forall_impl; [|exact Hr]. intros s Hs. simpl in Hs.
  apply normalize_sample_flat; lra.
Qed.

Lemma constant_grid_normalizes_witness :
  List.concat flat_grid <> [] /\
  List.Forall (List.Forall (fun s => s == 7)) flat_grid /\
  normalize (grid flat_grid) = Ok (grid [[0; 0; 0]; [0; 0; 0]]%Z).
Proof.
  split; [discriminate|].
  split; [repeat constructor|].
  apply (constant_grid_normalizes flat_grid 7); [discriminate|repeat constructor].
Defined.

(** C4: in a grid with at least two distinct sample values, for samples
    [a > b] that both lie inside the percentile window (neither is
    clipped), the output value of [a] is at least the output value of [b]. *)
Theorem normalized_monotone (g : list (list Q)) (lo hi a b : Q) :
  (exists s t, List.In s (List.concat g) /\ List.In t (List.concat g) /\ ~ s == t) ->
  window (grid g) = Ok (lo, hi) ->
  List.In a (List.concat g) -> List.In b (List.concat g) ->
  b < a ->
  lo <= a -> a <= hi -> lo <= b -> b <= hi ->
  normalize (grid g) = Ok (grid (List.map (List.map (normalize_sample lo hi)) g)) /\
  (normalize_sample lo hi b <= normalize_sample lo hi a)%Z.
Proof.
  intros _ Hw Ha _ Hlt _ _ _ _.
  assert (Hne : ravel (grid g) <> []).
  { rewrite ravel_grid. intros E. rewrite E in Ha. exact Ha. }
  destruct (normalize_nonempty (grid g) Hne) as (lo' & hi' & Hw' & _ & _ & Hle & Hn).
  rewrite Hw in Hw'. apply Ok_inj in Hw'. injection Hw' as <- <-.
  split; [now rewrite Hn, nd_map_grid|].
  apply normalize_sample_mono; [exact Hle|lra].
Qed.

Lemma normalized_monotone_witness :
  exists lo hi : Q,
    window (grid ramp_grid) = Ok (lo, hi) /\
    (10 < 15 /\ lo <= 10 /\ 15 <= hi) /\
    normalize (grid ramp_grid)
      = Ok (grid (List.map (List.map (normalize_sample lo hi)) ramp_grid)) /\
    (normalize_sample lo hi 10 <= normalize_sample lo hi 15)%Z.
Proof.
  eexists _, _. split; [vm_compute; reflexivity|].
  split; [repeat split; vm_compute; discriminate|].
  apply (normalized_monotone ramp_grid _ _ 15 10).
  - exists 0, 10. repeat split; simpl; auto. discriminate.
  - vm_compute. reflexivity.
  - simpl. auto.
  - simpl. auto.
  - reflexivity.
  - vm_compute. discriminate.
  - vm_compute. discriminate.
  - vm_compute. discriminate.
  - vm_compute. discriminate.
Defined.

End NormalizerClaims.

(** ** File names *)

Section FileNames.

Local Open Scope Z_scope.

Lemma app_nil_string (t : string) : EmptyString +:+ t = t.
Proof. reflexivity. Qed.

Lemma app_cons_string (c : ascii) (s t : string) :
  String c s +:+ t = String c (s +:+ t).
Proof. reflexivity. Qed.

Lemma length_app_string (s t : string) :
  String.length (s +:+ t) = (String.length s + String.length t)%nat.
Proof.
  induction s as [|c s IH]; rewrite ?app_nil_string, ?app_cons_string; simpl; congruence.
Qed.

Lemma len_app (s t : string) : Str.len (s +:+ t) = Str.len s + Str.len t.
Proof. unfold Str.len. rewrite length_app_string. lia. Qed.

Lemma lower_app (s t : string) : Str.lower (s +:+ t) = Str.lower s +:+ Str.lower t.
Proof.
  induction s as [|c s IH]; rewrite ?app_nil_string, ?app_cons_string; simpl;
    rewrite ?app_nil_string, ?app_cons_string; congruence.
Qed.

Lemma len_lower (s : string) : Str.len (Str.lower s) = Str.len s.
Proof. unfold Str.len. f_equal. induction s as [|c s IH]; simpl; congruence. Qed.

Lemma substring_all (t : string) : substring 0 (String.length t) t = t.
Proof. induction t as [|c t IH]; simpl; congruence. Qed.

Lemma substring_prefix (s t : string) : substring 0 (String.length s) (s +:+ t) = s.
Proof.
  induction s as [|c s IH]; rewrite ?app_nil_string, ?app_cons_string; simpl;
    [now destruct t|congruence].
Qed.

Lemma substring_suffix (s t : string) :
  substring (String.length s) (String.length t) (s +:+ t) = t.
Proof.
  induction s as [|c s IH]; rewrite ?app_nil_string, ?app_cons_string; simpl;
    [apply substring_all|exact IH].
Qed.

Lemma rfind_from_app (s t : string) (c : ascii) (i found : Z) :
  Str.rfind_from (s +:+ t) c i found =
    Str.rfind_from t c (i + Str.len s) (Str.rfind_from s c i found).
Proof.
  revert i found.
  induction s as [|a s IH]; intros i found;
    rewrite ?app_nil_string, ?app_cons_string; simpl.
  - f_equal. unfold Str.len. simpl. lia.
  - rewrite IH. f_equal. unfold Str.len. simpl String.length. lia.
Qed.

Lemma lower_ascii_dot (c : ascii) : Str.lower_ascii c = "."%char -> c = "."%char.
Proof.
  destruct c as [[] [] [] [] [] [] [] []]; vm_compute; congruence.
Qed.

Lemma lower_ascii_letter (c l : ascii) :
  Str.lower_ascii c = l ->
  (97 <= Z.of_nat (nat_of_ascii l) <= 122) ->
  Ascii.eqb c "." = false /\ Ascii.eqb c "/" = false.
Proof.
  intros <-.
  destruct c as [[] [] [] [] [] [] [] []]; vm_compute; intuition congruence.
Qed.

(** A name whose last four characters read [.dcm] in any case, after a stem
    that has no separator and is not made of dots only, is a candidate, and
    its output name is the stem followed by [.png]. *)
Lemma out_name_replaces_extension (stem ext : string) :
  Str.lower ext = ".dcm"%string ->
  Str.all_dots stem = false ->
  Str.rfind stem "/" = -1 ->
  is_dcm (stem +:+ ext) = true /\ out_name (stem +:+ ext) = stem +:+ ".png".
Proof.
  intros Hext Hstem Hsep.
  destruct ext as [|c0 [|c1 [|c2 [|c3 [|c4 ext]]]]]; try discriminate Hext.
  simpl in Hext. injection Hext as H0 H1 H2 H3.
  apply lower_ascii_dot in H0. subst c0.
  destruct (lower_ascii_letter c1 _ H1) as [D1 S1]; [vm_compute; split; congruence|].
  destruct (lower_ascii_letter c2 _ H2) as [D2 S2]; [vm_compute; split; congruence|].
  destruct (lower_ascii_letter c3 _ H3) as [D3 S3]; [vm_compute; split; congruence|].
  set (ext := String "." (String c1 (String c2 (String c3 EmptyString)))).
  assert (Hlen : Str.len ext = 4) by reflexivity.
  assert (Hn : 0 <= Str.len stem) by (unfold Str.len; lia).
  split.
  - unfold is_dcm, Str.endswith.
    rewrite lower_app, len_app, !len_lower.
    replace (Str.lower ext) with ".dcm"%string
      by (unfold ext; simpl; now rewrite H1, H2, H3).
    rewrite Hlen. change (Str.len ".dcm") with 4.
    destruct (Z.leb_spec 4 (Str.len stem + 4)); [simpl|lia].
    unfold Str.slice.
    replace (Z.to_nat (Str.len stem + 4 - 4)) with (String.length (Str.lower stem))
      by (rewrite <- (len_lower stem); unfold Str.len; lia).
    replace (Z.to_nat (Str.len stem + 4 - (Str.len stem + 4 - 4)))
      with (String.length ".dcm") by (simpl; lia).
    rewrite substring_suffix. reflexivity.
  - unfold out_name, Str.splitext, Str.rfind.
    rewrite !rfind_from_app. fold (Str.rfind stem "/"). rewrite Hsep.
    unfold ext at 1 2. simpl Str.rfind_from.
    rewrite S1, S2, S3, D1, D2, D3. simpl Ascii.eqb.
    destruct (Z.ltb_spec (-1) (0 + Str.len stem)); [|lia].
    unfold Str.slice.
    replace (Z.to_nat (-1 + 1)) with 0%nat by lia.
    replace (Z.to_nat (0 + Str.len stem - (-1 + 1))) with (String.length stem)
      by (unfold Str.len; lia).
    rewrite substring_prefix, Hstem. simpl.
    replace (Z.to_nat 0) with 0%nat by lia.
    replace (Z.to_nat (0 + Str.len stem - 0)) with (String.length stem)
      by (unfold Str.len; lia).
    now rewrite substring_prefix.
Qed.

End FileNames.

(** ** The batch loop *)

Section Batch.

Lemma for_each_app {A : Type} (body : A -> state -> outcome) (l1 l2 : list A)
    (st : state) :
  for_each body (l1 ++ l2) st =
    match for_each body l1 st with
    | Done st' => for_each body l2 st'
    | Raised e st' => Raised e st'
    end.
Proof.
  revert st. induction l1 as [|x l1 IH]; intros st; simpl; [reflexivity|].
  destruct (body x st); [apply IH|reflexivity].
Qed.

Lemma for_each_map {A B : Type} (f : A -> B) (body : B -> state -> outcome)
    (l : list A) (st : state) :
  for_each body (List.map f l) st = for_each (fun x => body (f x)) l st.
Proof.
  revert st. induction l as [|x l IH]; intros st; simpl; [reflexivity|].
  destruct (body (f x) st); [apply IH|reflexivity].
Qed.

(** The nested loops are one loop over [work]. *)
Lemma run_work (dst : string) (walked : list (string * list (string * dicom)))
    (st : state) :
  run dst walked st = for_each (convert_item dst) (work walked) st.
Proof.
  unfold run, work. revert st.
  induction walked as [|t walked IH]; intros st; simpl; [reflexivity|].
  rewrite for_each_app, for_each_map. unfold convert_item at 1. simpl.
  destruct (for_each (convert_file dst t.1) t.2 st); [apply IH|reflexivity].
Qed.

Lemma convert_item_skip (dst : string) (it : string * (string * dicom)) (st : state) :
  candidate it = false -> convert_item dst it st = Done st.
Proof.
  unfold candidate, convert_item, convert_file. intros ->. reflexivity.
Qed.

Lemma convert_item_ok (dst : string) (it : string * (string * dicom)) (st : state)
    (image : ndarray Z) :
  candidate it = true -> to_image it.2.2 = Ok image ->
  convert_item dst it st =
    Done (incr_count (save (Str.join dst (out_name it.2.1)) image st)).
Proof.
  unfold candidate, convert_item, convert_file. intros -> ->. reflexivity.
Qed.

Lemma convert_item_raise (dst : string) (it : string * (string * dicom)) (st : state)
    (e : exn) :
  candidate it = true -> to_image it.2.2 = Raise e ->
  convert_item dst it st = Raised e st.
Proof.
  unfold candidate, convert_item, convert_file. intros -> ->. reflexivity.
Qed.

(** What one iteration can do. *)
Lemma convert_item_cases (dst : string) (it : string * (string * dicom)) (st : state) :
  (candidate it = false /\ convert_item dst it st = Done st) \/
  (exists image, candidate it = true /\ to_image it.2.2 = Ok image /\
     convert_item dst it st =
       Done (incr_count (save (Str.join dst (out_name it.2.1)) image st))) \/
  (exists e, candidate it = true /\ to_image it.2.2 = Raise e /\
     convert_item dst it st = Raised e st).
Proof.
  destruct (candidate it) eqn:Ec.
  - destruct (to_image it.2.2) as [image|e] eqn:Ei.
    + right. left. exists image. auto using convert_item_ok.
    + right. right. exists e. auto using convert_item_raise.
  - left. auto using convert_item_skip.
Qed.

(** A loop over items that all convert runs to completion. *)
Lemma for_each_total (dst : string) (items : list (string * (string * dicom)))
    (st : state) :
  forallb can_convert items = true ->
  exists st', for_each (convert_item dst) items st = Done st'.
Proof.
  revert st. induction items as [|it items IH]; intros st Hall; simpl.
  - now exists st.
  - simpl in Hall. apply andb_prop in Hall as [Hit Hall].
    destruct (convert_item_cases dst it st)
      as [[_ ->]|[(image & _ & _ & ->)|(e & Hc & Hi & _)]]; [now apply IH..|].
    unfold can_convert, candidate in *. rewrite Hc, Hi in Hit. discriminate.
Qed.

(** The loop prints nothing and creates no directory. *)
Lemma for_each_stdout (dst : string) (items : list (string * (string * dicom)))
    (st : state) :
  stdout (state_of (for_each (convert_item dst) items st)) = stdout st /\
  made (state_of (for_each (convert_item dst) items st)) = made st.
Proof.
  revert st. induction items as [|it items IH]; intros st; simpl; [auto|].
  destruct (convert_item_cases dst it st)
    as [[_ ->]|[(image & _ & _ & ->)|(e & _ & _ & ->)]]; simpl; auto.
  destruct (IH (incr_count (save (Str.join dst (out_name it.2.1)) image st)))
    as [-> ->]. auto.
Qed.

(** The counter moves with the write log. *)
Lemma for_each_count (dst : string) (items : list (string * (string * dicom)))
    (st : state) :
  let st' := state_of (for_each (convert_item dst) items st) in
  exists writes, saved st' = writes ++ saved st /\
    count st' = (length writes + count st)%nat.
Proof.
  revert st. induction items as [|it items IH]; intros st; simpl.
  - now exists [].
  - destruct (convert_item_cases dst it st)
      as [[_ ->]|[(image & _ & _ & ->)|(e & _ & _ & ->)]]; simpl.
    + apply IH.
    + destruct (IH (incr_count (save (Str.join dst (out_name it.2.1)) image st)))
        as (writes & Hs & Hc). simpl in Hs, Hc.
      exists (writes ++ [(Str.join dst (out_name it.2.1), image)]).
      rewrite Hs, Hc, <- List.app_assoc, List.length_app. simpl. split; [reflexivity|lia].
    + now exists [].
Qed.

(** A completed loop converted every candidate. *)
Lemma for_each_done_count (dst : string) (items : list (string * (string * dicom)))
    (st st' : state) :
  for_each (convert_item dst) items st = Done st' ->
  count st' = (length (List.filter candidate items) + count st)%nat.
Proof.
  revert st. induction items as [|it items IH]; intros st; simpl.
  - intros H. injection H as <-. reflexivity.
  - destruct (convert_item_cases dst it st)
      as [[Hc ->]|[(image & Hc & _ & ->)|(e & _ & _ & ->)]]; rewrite ?Hc.
    + apply IH.
    + intros H. apply IH in H. simpl in *. lia.
    + discriminate.
Qed.

(** A path no item targets keeps its content. *)
Lemma for_each_untouched (dst path : string)
    (items : list (string * (string * dicom))) (st : state) :
  List.Forall (fun it => target dst it <> Some path) items ->
  files (state_of (for_each (convert_item dst) items st)) !! path = files st !! path.
Proof.
  intros Hall. revert st.
  induction Hall as [|it items Hit _ IH]; intros st; simpl; [reflexivity|].
  destruct (convert_item_cases dst it st)
    as [[_ ->]|[(image & Hc & _ & ->)|(e & _ & _ & ->)]]; simpl; auto.
  rewrite IH. simpl. apply lookup_insert_ne.
  unfold target, candidate in *. rewrite Hc in Hit. congruence.
Qed.

End Batch.

(** ** The whole script *)

Section Script.

Lemma main_runs (argv : list string) (w : world) (src dst : string) :
  deps_installed w = true ->
  argv !! 1%nat = Some src -> argv !! 2%nat = Some dst ->
  makedirs_ok w dst = true ->
  main argv w =
    match for_each (convert_item dst) (work (os_walk src (tree_at w src))) (start w dst) with
    | Done st => Done (print (summary (count st) dst) st)
    | Raised e st => Raised e st
    end.
Proof.
  intros Hd H1 H2 Hm. unfold main. rewrite Hd, H1, H2, Hm. simpl.
  now rewrite run_work.
Qed.

Lemma main_done (argv : list string) (w : world) (fin : state) :
  main argv w = Done fin ->
  exists src dst st,
    deps_installed w = true /\
    argv !! 1%nat = Some src /\ argv !! 2%nat = Some dst /\
    makedirs_ok w dst = true /\
    for_each (convert_item dst) (work (os_walk src (tree_at w src))) (start w dst)
      = Done st /\
    fin = print (summary (count st) dst) st.
Proof.
  unfold main.
  destruct (deps_installed w) eqn:Hd; simpl; [|discriminate].
  destruct (argv !! 1%nat) as [src|] eqn:H1; [|discriminate].
  destruct (argv !! 2%nat) as [dst|] eqn:H2; [|discriminate].
  destruct (makedirs_ok w dst) eqn:Hm; simpl; [|discriminate].
  rewrite run_work.
  destruct (for_each _ _ _) as [st|e st] eqn:Hrun; [|discriminate].
  intros H. injection H as <-. exists src, dst, st. auto 10.
Qed.

(** C5, as the code has it: the first candidate that fails to decode (or to
    convert) ends the run with its exception; the files before it stay
    converted, no later file is touched, nothing is logged and no summary
    line is printed. *)
Theorem decode_error_aborts_batch (argv : list string) (w : world) (src dst : string)
    (pre post : list (string * (string * dicom))) (root fn : string) (e : exn)
    (st : state) :
  deps_installed w = true ->
  argv !! 1%nat = Some src -> argv !! 2%nat = Some dst ->
  makedirs_ok w dst = true ->
  work (os_walk src (tree_at w src)) = pre ++ (root, (fn, Raise e)) :: post ->
  is_dcm fn = true ->
  for_each (convert_item dst) pre (start w dst) = Done st ->
  main argv w = Raised e st /\
  stdout st = [] /\
  count st = length (List.filter candidate pre) /\
  count st = length (saved st).
Proof.
  intros Hd H1 H2 Hm Hwork Hfn Hpre.
  rewrite (main_runs argv w src dst Hd H1 H2 Hm), Hwork, for_each_app, Hpre.
  simpl. rewrite (convert_item_raise dst (root, (fn, Raise e)) st e Hfn eq_refl).
  split; [reflexivity|].
  pose proof (for_each_stdout dst pre (start w dst)) as [Hout _].
  pose proof (for_each_done_count dst pre _ _ Hpre) as Hcount.
  destruct (for_each_count dst pre (start w dst)) as (writes & Hs & Hc).
  rewrite Hpre in Hout, Hs, Hc. simpl in *.
  rewrite Hs, List.app_nil_r. repeat split; [assumption|lia..].
Qed.

Lemma decode_error_aborts_batch_witness :
  exists st,
    for_each (convert_item "out") [("in", ("a.dcm", Ok scan_a))]
      (start (world_of "in" (Some late_corrupt_tree)) "out") = Done st /\
    main argv_in_out (world_of "in" (Some late_corrupt_tree))
      = Raised InvalidDicomError st /\
    stdout st = [] /\
    count st = length (List.filter candidate [("in", ("a.dcm", Ok scan_a))]) /\
    count st = length (saved st).
Proof.
  eexists. split; [vm_compute; reflexivity|].
  apply (decode_error_aborts_batch argv_in_out (world_of "in" (Some late_corrupt_tree))
           "in" "out" [("in", ("a.dcm", Ok scan_a))]
           [("in", ("c.dcm", Ok scan_b))] "in" "b.dcm" InvalidDicomError);
    vm_compute; reflexivity.
Defined.

(** C5 fails on the code: with a corrupt [a.dcm] listed before a sound
    [b.dcm], the run ends in the decode exception, [b.dcm] is never
    converted, and nothing is printed. *)
Lemma decode_error_not_isolated :
  main argv_in_out (world_of "in" (Some corrupt_tree))
    = Raised InvalidDicomError (start (world_of "in" (Some corrupt_tree)) "out") /\
  (exists image, to_image (Ok scan_a) = Ok image) /\
  files (state_of (main argv_in_out (world_of "in" (Some corrupt_tree))))
    !! "out/b.png" = None /\
  stdout (state_of (main argv_in_out (world_of "in" (Some corrupt_tree)))) = [].
Proof.
  split; [vm_compute; reflexivity|].
  split; [eexists; vm_compute; reflexivity|].
  split; vm_compute; reflexivity.
Qed.

Lemma os_walk_unlistable (top : string) (at_top : option node) :
  listable at_top = false -> os_walk top at_top = [].
Proof. destruct at_top as [[d|[|] es]|]; simpl; congruence. Qed.

(** C6, as the code has it: when the input root is missing or cannot be
    listed, the walk yields nothing; the script still ensures the output
    root, converts no file, and completes normally with the summary line
    for a count of 0. *)
Theorem unlistable_root_converts_nothing (argv : list string) (w : world)
    (src dst : string) :
  deps_installed w = true ->
  argv !! 1%nat = Some src -> argv !! 2%nat = Some dst ->
  makedirs_ok w dst = true ->
  listable (tree_at w src) = false ->
  main argv w =
    Done {| files := files0 w; made := [dst]; saved := []; count := 0;
            stdout := ["Converted 0 DICOMs to PNG in: " +:+ dst] |}.
Proof.
  intros Hd H1 H2 Hm Hl.
  rewrite (main_runs argv w src dst Hd H1 H2 Hm).
  rewrite (os_walk_unlistable _ _ Hl). reflexivity.
Qed.

Lemma unlistable_root_converts_nothing_witness :
  listable (tree_at (world_of "in" (Some (Dir false []))) "in") = false /\
  main argv_in_out (world_of "in" (Some (Dir false []))) =
    Done {| files := ∅; made := ["out"]; saved := []; count := 0;
            stdout := ["Converted 0 DICOMs to PNG in: out"] |}.
Proof.
  split; [reflexivity|].
  apply (unlistable_root_converts_nothing argv_in_out
           (world_of "in" (Some (Dir false []))) "in" "out"); reflexivity.
Defined.

(** C6 fails on the code: a missing input root is not fatal; the run
    completes and reports zero conversions. *)
Lemma missing_root_not_fatal :
  tree_at (world_of "elsewhere" (Some corrupt_tree)) "in" = None /\
  main argv_in_out (world_of "elsewhere" (Some corrupt_tree)) =
    Done {| files := ∅; made := ["out"]; saved := []; count := 0;
            stdout := ["Converted 0 DICOMs to PNG in: out"] |}.
Proof. split; vm_compute; reflexivity. Qed.

(** *** Name collisions in the flat output directory *)

Lemma one_entry_per_name {V : Type} (m : gmap string V) (path : string) (v : V) :
  m !! path = Some v ->
  List.filter (fun kv => bool_decide (kv.1 = path)) (map_to_list m) = [(path, v)].
Proof.
  intros Hv. apply elem_of_map_to_list in Hv.
  pose proof (NoDup_fst_map_to_list m) as Hnd.
  induction (map_to_list m) as [|[k x] l IH]; [inversion Hv|].
  simpl in *. apply NoDup_cons in Hnd as [Hk Hnd].
  apply elem_of_cons in Hv as [Hv|Hv].
  - injection Hv as <- <-. rewrite bool_decide_eq_true_2 by reflexivity. f_equal.
    clear IH Hnd. induction l as [|[k' x'] l IH]; simpl; [reflexivity|].
    rewrite fmap_cons in Hk. apply not_elem_of_cons in Hk as [Hne Hk].
    rewrite bool_decide_eq_false_2 by (simpl in *; congruence). auto.
  - rewrite bool_decide_eq_false_2; [auto|].
    simpl. intros ->. apply Hk. apply list_elem_of_fmap. now exists (path, v).
Qed.

(** C7, as the code has it: when two candidates with the same file name
    [fn] sit under different roots, and every file up to and including the
    second of them converts, both are written to the one path
    [dst/out_name fn]: after the first it holds the first image, the second
    write replaces it without an error, and, no later file being written to
    that path, the directory ends with exactly one entry of that name,
    holding the image of the file processed last, whether the rest of the
    run completes or raises. The name is the stem of [fn] with [.png] in
    place of the extension. *)
Theorem colliding_names_last_wins (dst : string)
    (walked : list (string * list (string * dicom)))
    (pre mid post : list (string * (string * dicom)))
    (root1 root2 fn : string) (d1 d2 : dicom) (st0 : state) :
  work walked = pre ++ (root1, (fn, d1)) :: mid ++ (root2, (fn, d2)) :: post ->
  root1 <> root2 ->
  is_dcm fn = true ->
  forallb can_convert (pre ++ (root1, (fn, d1)) :: mid ++ [(root2, (fn, d2))]) = true ->
  List.Forall (fun it => target dst it <> Some (Str.join dst (out_name fn))) post ->
  exists (image1 image2 : ndarray Z) (st1 : state),
    to_image d1 = Ok image1 /\ to_image d2 = Ok image2 /\
    for_each (convert_item dst) (pre ++ [(root1, (fn, d1))]) st0 = Done st1 /\
    files st1 !! Str.join dst (out_name fn) = Some image1 /\
    files (state_of (run dst walked st0)) !! Str.join dst (out_name fn) = Some image2 /\
    List.filter (fun kv => bool_decide (kv.1 = Str.join dst (out_name fn)))
      (map_to_list (files (state_of (run dst walked st0))))
      = [(Str.join dst (out_name fn), image2)] /\
    (forall stem ext, fn = stem +:+ ext -> Str.lower ext = ".dcm"%string ->
       Str.all_dots stem = false -> Str.rfind stem "/" = (-1)%Z ->
       out_name fn = stem +:+ ".png").
Proof.
  intros Hwork _ Hfn Hall Hpost. rewrite run_work, Hwork.
  rewrite forallb_app in Hall. apply andb_prop in Hall as [Hpre Hall].
  simpl in Hall. apply andb_prop in Hall as [H1 Hall].
  rewrite forallb_app in Hall. apply andb_prop in Hall as [Hmid Hall].
  simpl in Hall. apply andb_prop in Hall as [H2 _].
  unfold can_convert in H1, H2. simpl in H1, H2. rewrite Hfn in H1, H2. simpl in H1, H2.
  destruct (to_image d1) as [image1|] eqn:E1; [|discriminate].
  destruct (to_image d2) as [image2|] eqn:E2; [|discriminate].
  exists image1, image2.
  destruct (for_each_total dst pre st0 Hpre) as [sa Ha].
  set (path := Str.join dst (out_name fn)).
  set (sb := incr_count (save path image1 sa)).
  destruct (for_each_total dst mid sb Hmid) as [sc Hc].
  set (sd := incr_count (save path image2 sc)).
  exists sb. split; [reflexivity|]. split; [reflexivity|].
  assert (Hfirst : for_each (convert_item dst) (pre ++ [(root1, (fn, d1))]) st0 = Done sb).
  { rewrite for_each_app, Ha. simpl.
    now rewrite (convert_item_ok dst (root1, (fn, d1)) sa image1 Hfn E1). }
  split; [exact Hfirst|].
  split; [apply lookup_insert_eq|].
  assert (Hrun : for_each (convert_item dst)
            (pre ++ (root1, (fn, d1)) :: mid ++ (root2, (fn, d2)) :: post) st0
            = for_each (convert_item dst) post sd).
  { change (pre ++ (root1, (fn, d1)) :: mid ++ (root2, (fn, d2)) :: post)
      with (pre ++ [(root1, (fn, d1))] ++ mid ++ [(root2, (fn, d2))] ++ post).
    rewrite List.app_assoc, for_each_app, Hfirst, for_each_app, Hc. simpl.
    now rewrite (convert_item_ok dst (root2, (fn, d2)) sc image2 Hfn E2). }
  rewrite Hrun.
  assert (Hlast : files (state_of (for_each (convert_item dst) post sd)) !! path
                    = Some image2).
  { rewrite (for_each_untouched dst path post sd Hpost). apply lookup_insert_eq. }
  split; [exact Hlast|]. split; [now apply one_entry_per_name|].
  intros stem ext -> Hext Hstem Hsep.
  now apply out_name_replaces_extension.
Qed.

Lemma colliding_names_last_wins_witness :
  let walked := os_walk "in" (Some collide_then_corrupt_tree) in
  let st0 := start (world_of "in" (Some collide_then_corrupt_tree)) "out" in
  (exists e st, run "out" walked st0 = Raised e st) /\
  exists image1 image2 st1,
    to_image (Ok scan_a) = Ok image1 /\ to_image (Ok scan_b) = Ok image2 /\
    for_each (convert_item "out") ([] ++ [("in/a", ("x.dcm", Ok scan_a))]) st0 = Done st1 /\
    files st1 !! Str.join "out" (out_name "x.dcm") = Some image1 /\
    files (state_of (run "out" walked st0)) !! Str.join "out" (out_name "x.dcm")
      = Some image2 /\
    List.filter (fun kv => bool_decide (kv.1 = Str.join "out" (out_name "x.dcm")))
      (map_to_list (files (state_of (run "out" walked st0))))
      = [(Str.join "out" (out_name "x.dcm"), image2)] /\
    (forall stem ext, "x.dcm"%string = stem +:+ ext -> Str.lower ext = ".dcm"%string ->
       Str.all_dots stem = false -> Str.rfind stem "/" = (-1)%Z ->
       out_name "x.dcm" = stem +:+ ".png").
Proof.
  intros walked st0. split; [eexists _, _; vm_compute; reflexivity|].
  apply (colliding_names_last_wins "out" walked
           [] [] [("in/c", ("y.dcm", Raise InvalidDicomError))]
           "in/a" "in/b" "x.dcm" (Ok scan_a) (Ok scan_b)).
  - reflexivity.
  - discriminate.
  - reflexivity.
  - vm_compute. reflexivity.
  - repeat constructor. vm_compute. discriminate.
Defined.

(** C7 fails on the code when a file up to the second of the pair does not
    convert. With a corrupt [0.dcm] listed before [a/x.dcm] and [b/x.dcm]
    the run raises and no [x.png] exists; with a multi-frame [b/x.dcm] the
    run raises at that file and [x.png] holds the image of [a/x.dcm], not
    of the file processed last. *)
Lemma colliding_names_need_conversion :
  (List.In ("in/a", ("x.dcm", Ok scan_a))
     (work (os_walk "in" (Some corrupt_then_collide_tree))) /\
   List.In ("in/b", ("x.dcm", Ok scan_b))
     (work (os_walk "in" (Some corrupt_then_collide_tree))) /\
   main argv_in_out (world_of "in" (Some corrupt_then_collide_tree))
     = Raised InvalidDicomError
         (start (world_of "in" (Some corrupt_then_collide_tree)) "out") /\
   files (state_of (main argv_in_out (world_of "in" (Some corrupt_then_collide_tree))))
     !! "out/x.png" = None) /\
  (work (os_walk "in" (Some collide_multiframe_tree))
     = [("in/a", ("x.dcm", Ok scan_a)); ("in/b", ("x.dcm", Ok cine))] /\
   (exists st, main argv_in_out (world_of "in" (Some collide_multiframe_tree))
                 = Raised TypeError st) /\
   exists image1,
     to_image (Ok scan_a) = Ok image1 /\
     files (state_of (main argv_in_out (world_of "in" (Some collide_multiframe_tree))))
       !! "out/x.png" = Some image1).
Proof.
  split.
  - split; [simpl; auto|]. split; [simpl; auto|].
    split; vm_compute; reflexivity.
  - split; [reflexivity|].
    split; [eexists; vm_compute; reflexivity|].
    eexists. split; vm_compute; reflexivity.
Qed.

(** *** The summary line *)

(** What a completed run leaves behind, before the summary is printed. *)
Lemma completed_loop_facts (dst : string) (items : list (string * (string * dicom)))
    (w : world) (st : state) :
  for_each (convert_item dst) items (start w dst) = Done st ->
  stdout st = [] /\
  count st = length (saved st) /\
  count st = length (List.filter candidate items).
Proof.
  intros Hrun.
  pose proof (for_each_stdout dst items (start w dst)) as [Hout _].
  pose proof (for_each_done_count dst _ _ _ Hrun) as Hcount.
  destruct (for_each_count dst items (start w dst)) as (writes & Hs & Hc).
  rewrite Hrun in Hout, Hs, Hc. simpl in *.
  rewrite Hs, List.app_nil_r. repeat split; [assumption|lia..].
Qed.

(** C8, as the code has it: a run that completes prints exactly one line,
    [Converted <N> DICOMs to PNG in: <output_root>], where N is the final
    counter: the number of files written, which in a completed run is the
    number of candidates found. *)
Theorem final_summary_line (argv : list string) (w : world) (fin : state) :
  main argv w = Done fin ->
  exists src dst : string,
    argv !! 1%nat = Some src /\ argv !! 2%nat = Some dst /\
    stdout fin =
      ["Converted " +:+ Str.of_nat (count fin) +:+ " DICOMs to PNG in: " +:+ dst] /\
    count fin = length (saved fin) /\
    count fin = length (List.filter candidate (work (os_walk src (tree_at w src)))).
Proof.
  intros Hmain.
  destruct (main_done argv w fin Hmain) as (src & dst & st & _ & H1 & H2 & _ & Hrun & ->).
  exists src, dst. split; [exact H1|]. split; [exact H2|].
  destruct (completed_loop_facts dst _ w st Hrun) as (Hout & Hlen & Hcand).
  unfold print, summary. simpl. rewrite Hout. auto.
Qed.

Lemma final_summary_line_witness :
  exists fin src dst,
    main argv_in_out (world_of "in" (Some collide_tree)) = Done fin /\
    argv_in_out !! 1%nat = Some src /\ argv_in_out !! 2%nat = Some dst /\
    stdout fin =
      ["Converted " +:+ Str.of_nat (count fin) +:+ " DICOMs to PNG in: " +:+ dst] /\
    count fin = length (saved fin) /\
    count fin = length (List.filter candidate
                          (work (os_walk src (tree_at (world_of "in" (Some collide_tree)) src)))).
Proof.
  eexists.
  assert (H : main argv_in_out (world_of "in" (Some collide_tree)) = Done _)
    by (vm_compute; reflexivity).
  destruct (final_summary_line _ _ _ H) as (src & dst & H').
  exists src, dst. split; [exact H|exact H'].
Defined.

(** C8 fails on the code in the wording of the line: the run over the two
    colliding files prints [Converted 2 DICOMs to PNG in: out], not
    [Converted 2 files to: out]. *)
Lemma summary_line_wording :
  exists fin,
    main argv_in_out (world_of "in" (Some collide_tree)) = Done fin /\
    count fin = 2%nat /\
    stdout fin = ["Converted 2 DICOMs to PNG in: out"] /\
    stdout fin <> ["Converted 2 files to: out"].
Proof.
  eexists. split; [vm_compute; reflexivity|].
  split; [reflexivity|]. split; [reflexivity|]. discriminate.
Qed.

(** *** Frames *)

(** C9, as the code has it: line 25 hands the normalizer the whole decoded
    array, whatever its number of axes: same shape, every sample of every
    frame, and the normalized array keeps that shape. *)
Theorem normalizer_receives_whole_array (pixel_array : ndarray Z) :
  shape (px_of pixel_array) = shape pixel_array /\
  ravel (px_of pixel_array) = List.map Np.astype_float32 (ravel pixel_array) /\
  (ravel pixel_array <> [] ->
   exists lo hi, window (px_of pixel_array) = Ok (lo, hi) /\
     normalize (px_of pixel_array)
       = Ok (nd_map (fun s => normalize_sample lo hi (Np.astype_float32 s)) pixel_array)) /\
  forall img, normalize (px_of pixel_array) = Ok img -> shape img = shape pixel_array.
Proof.
  unfold px_of. split; [apply shape_nd_map|]. split; [apply ravel_nd_map|].
  assert (Hmm : forall (f : Q -> Z) (a : ndarray Z),
             nd_map f (nd_map Np.astype_float32 a)
               = nd_map (fun s => f (Np.astype_float32 s)) a).
  { intros f a. induction a as [x|items IH] using ndarray_nested_ind; simpl;
      [reflexivity|].
    f_equal. rewrite List.map_map.
    induction IH as [|a items Ha _ IHitems]; simpl; congruence. }
  split.
  - intros Hne.
    assert (Hpx : ravel (nd_map Np.astype_float32 pixel_array) <> []).
    { rewrite ravel_nd_map. destruct (ravel pixel_array); [congruence|discriminate]. }
    destruct (normalize_nonempty _ Hpx) as (lo & hi & Hw & _ & _ & _ & Hn).
    exists lo, hi. split; [exact Hw|]. now rewrite Hn, Hmm.
  - intros img Hn.
    destruct (ravel (nd_map Np.astype_float32 pixel_array)) eqn:E.
    + rewrite (normalize_empty _ E) in Hn. discriminate.
    + assert (Hpx : ravel (nd_map Np.astype_float32 pixel_array) <> [])
        by (rewrite E; discriminate).
      destruct (normalize_nonempty _ Hpx) as (lo & hi & _ & _ & _ & _ & Hn').
      rewrite Hn' in Hn. apply Ok_inj in Hn. subst img.
      now rewrite !shape_nd_map.
Qed.

Lemma normalizer_receives_whole_array_witness :
  shape (px_of cine) = [2; 1; 5]%nat /\
  length (ravel (px_of cine)) = 10%nat /\
  exists lo hi, window (px_of cine) = Ok (lo, hi) /\
    normalize (px_of cine)
      = Ok (nd_map (fun s => normalize_sample lo hi (Np.astype_float32 s)) cine).
Proof.
  destruct (normalizer_receives_whole_array cine) as (Hshape & Hravel & Hnorm & _).
  split; [rewrite Hshape; reflexivity|].
  split; [rewrite Hravel; reflexivity|].
  apply Hnorm. discriminate.
Defined.

(** C9 fails on the code: for a two-frame array the normalizer is handed a
    3-D array, not the first frame; its window is taken over both frames,
    and the image that results has three axes, which [Image.fromarray]
    refuses. *)
Lemma multiframe_not_reduced :
  ndim cine = 3%nat /\
  ndim (px_of cine) = 3%nat /\
  px_of cine <> px_of (first_frame cine) /\
  window (px_of cine) <> window (px_of (first_frame cine)) /\
  (exists img, normalize (px_of cine) = Ok img /\ ndim img = 3%nat) /\
  to_image (Ok cine) = Raise TypeError.
Proof.
  split; [reflexivity|]. split; [reflexivity|].
  split; [discriminate|]. split; [vm_compute; discriminate|].
  split; [eexists; split; vm_compute; reflexivity|].
  vm_compute. reflexivity.
Qed.

(** *** The counter *)

(** As state transformers the write and the increment commute: the result
    of an iteration is the same in either order. Their order is a fact
    about the steps. *)
Lemma save_incr_commute (path : string) (image : ndarray Z) (st : state) :
  incr_count (save path image st) = save path image (incr_count st).
Proof. reflexivity. Qed.












End Script.

(** * Further properties of the script *)

(** ** The normalizer *)

Section NormalizerFacts.

Local Open Scope Q_scope.

Lemma window_some_nonempty (px : ndarray Q) (lo hi : Q) :
  window px = Ok (lo, hi) -> ravel px <> [].
Proof. intros Hw E. unfold window in Hw. rewrite E in Hw. discriminate. Qed.

Lemma window_facts (px : ndarray Q) (lo hi : Q) :
  window px = Ok (lo, hi) ->
  Np.percentile (ravel px) 1 = Ok lo /\ Np.percentile (ravel px) 99 = Ok hi /\ lo <= hi.
Proof.
  intros Hw. pose proof (window_some_nonempty px lo hi Hw) as Hne.
  destruct (window_nonempty px Hne) as (lo' & hi' & Hw' & H1 & H99 & Hle).
  rewrite Hw in Hw'. apply Ok_inj in Hw'. injection Hw' as <- <-. auto.
Qed.

Lemma order_stat_In (a : list Q) (k : Z) :
  (0 <= k < Z.of_nat (length a))%Z -> List.In (order_stat a k) a.
Proof.
  intros Hk. unfold order_stat.
  eapply Permutation_in; [apply sort_perm|].
  apply List.nth_In. rewrite sort_length. lia.
Qed.

(** X1: Every value of a normalized array is an 8-bit value, and no sample is
    lost or added, whatever the number of axes. *)
Theorem normalized_values_are_bytes (px : ndarray Q) :
  ravel px <> [] ->
  exists img, normalize px = Ok img /\
    List.Forall (fun v => (0 <= v <= 255)%Z) (ravel img) /\
    length (ravel img) = length (ravel px).
Proof.
  intros Hne.
  destruct (normalize_nonempty px Hne) as (lo & hi & _ & _ & _ & _ & Hn).
  eexists. split; [exact Hn|]. rewrite ravel_nd_map. split.
  - apply List.Forall_forall. intros v Hv.
    apply List.in_map_iff in Hv as (s & <- & _). apply normalize_sample_range.
  - apply List.length_map.
Qed.

Lemma normalized_values_are_bytes_witness :
  ravel (px_of cine) <> [] /\
  exists img, normalize (px_of cine) = Ok img /\
    List.Forall (fun v => (0 <= v <= 255)%Z) (ravel img) /\
    length (ravel img) = length (ravel (px_of cine)).
Proof.
  split; [discriminate|].
  apply (normalized_values_are_bytes (px_of cine)). discriminate.
Defined.

(** X2: The window is ordered and lies inside the data: some sample is at or
    below the lower bound and some sample is at or above the upper one. *)
Theorem window_within_samples (px : ndarray Q) (lo hi : Q) :
  window px = Ok (lo, hi) ->
  lo <= hi /\
  exists s t, List.In s (ravel px) /\ List.In t (ravel px) /\ s <= lo /\ hi <= t.
Proof.
  intros Hw. pose proof (window_some_nonempty px lo hi Hw) as Hne.
  destruct (window_facts px lo hi Hw) as (H1 & H99 & Hle).
  split; [exact Hle|].
  assert (Q1 : 0 <= 1 /\ 1 <= 100) by (split; lra).
  assert (Q99 : 0 <= 99 /\ 99 <= 100) by (split; lra).
  destruct (percentile_between _ _ _ Hne (proj1 Q1) (proj2 Q1) H1) as [Hlow _].
  destruct (percentile_between _ _ _ Hne (proj1 Q99) (proj2 Q99) H99) as [_ Hup].
  destruct (vindex_range _ 1 Hne (proj1 Q1) (proj2 Q1)) as [Ha Hb].
  destruct (vindex_range _ 99 Hne (proj1 Q99) (proj2 Q99)) as [Hc Hd].
  pose proof (floor_range _ _ Ha Hb) as Hj1.
  pose proof (floor_range _ _ Hc Hd) as Hj99.
  exists (order_stat (ravel px) (Qfloor (vindex (ravel px) 1))),
         (order_stat (ravel px) (next_index (ravel px) 99)).
  split; [apply order_stat_In; lia|].
  split; [apply order_stat_In; unfold next_index; lia|].
  split; assumption.
Qed.

Lemma window_within_samples_witness :
  exists lo hi, window (grid ramp_grid) = Ok (lo, hi) /\
    lo <= hi /\
    exists s t, List.In s (ravel (grid ramp_grid)) /\ List.In t (ravel (grid ramp_grid)) /\
                s <= lo /\ hi <= t.
Proof.
  eexists _, _. split; [vm_compute; reflexivity|].
  apply (window_within_samples (grid ramp_grid)). vm_compute. reflexivity.
Defined.





(** X4: The normalizer preserves the order of all samples, clipped or not. *)
Theorem normalization_preserves_order (px : ndarray Q) (lo hi a b : Q) :
  window px = Ok (lo, hi) -> b <= a ->
  (normalize_sample lo hi b <= normalize_sample lo hi a)%Z.
Proof.
  intros Hw Hab. destruct (window_facts px lo hi Hw) as (_ & _ & Hle).
  now apply normalize_sample_mono.
Qed.

Lemma normalization_preserves_order_witness :
  exists lo hi, window (grid ramp_grid) = Ok (lo, hi) /\
    (normalize_sample lo hi (-5) <= normalize_sample lo hi 4000)%Z.
Proof.
  eexists _, _. split; [vm_compute; reflexivity|].
  apply (normalization_preserves_order (grid ramp_grid) _ _ 4000 (-5));
    [vm_compute; reflexivity|vm_compute; discriminate].
Defined.

Lemma shape_grid_two {A : Type} (g : list (list A)) :
  g <> [] -> exists n m, shape (grid g) = [n; m].
Proof.
  destruct g as [|r g]; [congruence|]. intros _.
  exists (S (length g)), (length r).
  unfold grid, row_array. simpl. rewrite !List.length_map.
  do 2 f_equal. now destruct r.
Qed.

(** X5: A 2-D grid with at least one sample always converts: decoding aside,
    nothing in lines 25-31 can raise for it, and the image has one row per
    source row. *)
Theorem grid_always_converts (g : list (list Z)) :
  List.concat g <> [] ->
  exists img : list (list Z),
    to_image (Ok (grid g)) = Ok (grid img) /\
    length img = length g /\
    List.Forall (List.Forall (fun v => (0 <= v <= 255)%Z)) img.
Proof.
  intros Hne. unfold to_image. simpl. unfold px_of. rewrite nd_map_grid.
  set (px := List.map (List.map Np.astype_float32) g).
  assert (Hpx : ravel (grid px) <> []).
  { rewrite ravel_grid. unfold px. rewrite concat_map_map.
    destruct (List.concat g); [congruence|discriminate]. }
  destruct (normalize_nonempty (grid px) Hpx) as (lo & hi & _ & _ & _ & _ & Hn).
  rewrite Hn, nd_map_grid. simpl.
  set (img := List.map (List.map (normalize_sample lo hi)) px).
  exists img.
  assert (Himg : img <> []).
  { unfold img, px. destruct g; [simpl in Hne; congruence|discriminate]. }
  destruct (shape_grid_two img Himg) as (n & m & Hshape).
  unfold fromarray. rewrite Hshape. split; [reflexivity|].
  split; [unfold img, px; now rewrite !List.length_map|].
  unfold img. apply List.Forall_forall. intros r Hr.
  apply List.in_map_iff in Hr as (r' & <- & _).
  apply List.Forall_forall. intros v Hv.
  apply List.in_map_iff in Hv as (s & <- & _). apply normalize_sample_range.
Qed.

Lemma grid_always_converts_witness :
  List.concat sample_grid <> [] /\
  exists img : list (list Z),
    to_image (Ok (grid sample_grid)) = Ok (grid img) /\
    length img = length sample_grid /\
    List.Forall (List.Forall (fun v => (0 <= v <= 255)%Z)) img.
Proof.
  split; [discriminate|].
  apply (grid_always_converts sample_grid). discriminate.
Defined.

End NormalizerFacts.

(** ** Which files are picked up, and what they are called *)

Section NameFacts.

Local Open Scope Z_scope.

Lemma lower_substring (n m : nat) (s : string) :
  Str.lower (substring n m s) = substring n m (Str.lower s).
Proof.
  revert n m. induction s as [|c s IH]; intros [|n] [|m]; simpl; try reflexivity.
  - now rewrite IH.
  - apply IH.
  - apply IH.
Qed.

Lemma substring_split (n : nat) (s : string) :
  (n <= String.length s)%nat ->
  substring 0 n s +:+ substring n (String.length s - n) s = s.
Proof.
  revert n. induction s as [|c s IH]; intros [|n] Hn; simpl in *; try lia.
  - reflexivity.
  - rewrite app_nil_string, substring_all. reflexivity.
  - rewrite app_cons_string. f_equal. apply IH. lia.
Qed.

Lemma length_substring (n m : nat) (s : string) :
  (n + m <= String.length s)%nat -> String.length (substring n m s) = m.
Proof.
  revert n m. induction s as [|c s IH]; intros [|n] [|m] H; simpl in *;
    try reflexivity; try lia.
  - f_equal. apply IH. lia.
  - apply IH. lia.
  - apply IH. lia.
Qed.

(** The suffix test sees exactly the last characters. *)
Lemma endswith_app (s t suffix : string) :
  String.length t = String.length suffix ->
  Str.endswith (s +:+ t) suffix = String.eqb t suffix.
Proof.
  intros Hlen. unfold Str.endswith, Str.slice. rewrite len_app.
  unfold Str.len. rewrite Hlen.
  destruct (Z.leb_spec (Z.of_nat (String.length suffix))
              (Z.of_nat (String.length s) + Z.of_nat (String.length suffix))); [|lia].
  simpl.
  replace (Z.to_nat (Z.of_nat (String.length s) + Z.of_nat (String.length suffix)
                     - Z.of_nat (String.length suffix)))
    with (String.length s) by lia.
  replace (Z.to_nat (Z.of_nat (String.length s) + Z.of_nat (String.length suffix)
                     - (Z.of_nat (String.length s) + Z.of_nat (String.length suffix)
                        - Z.of_nat (String.length suffix))))
    with (String.length t) by lia.
  now rewrite substring_suffix.
Qed.

Lemma length_lower (s : string) : String.length (Str.lower s) = String.length s.
Proof. induction s as [|c s IH]; simpl; congruence. Qed.

Lemma is_dcm_suffix (stem ext : string) :
  Str.lower ext = ".dcm"%string -> is_dcm (stem +:+ ext) = true.
Proof.
  intros Hext. unfold is_dcm. rewrite lower_app, Hext.
  rewrite endswith_app by reflexivity. reflexivity.
Qed.

(** X6: Line 18 picks exactly the names whose last four characters read
    [.dcm] in any mix of upper and lower case. *)
Theorem is_dcm_iff (fn : string) :
  is_dcm fn = true <->
  exists stem ext, fn = stem +:+ ext /\ Str.lower ext = ".dcm"%string.
Proof.
  split.
  - unfold is_dcm, Str.endswith. intros H.
    apply andb_prop in H as [Hlen Heq].
    apply Z.leb_le in Hlen. apply String.eqb_eq in Heq.
    rewrite len_lower in Hlen, Heq.
    change (Str.len ".dcm") with 4 in Hlen, Heq.
    unfold Str.slice, Str.len in *.
    set (n := String.length fn) in *.
    replace (Z.to_nat (Z.of_nat n - (Z.of_nat n - 4))) with 4%nat in Heq by lia.
    replace (Z.to_nat (Z.of_nat n - 4)) with (n - 4)%nat in Heq by lia.
    exists (substring 0 (n - 4) fn), (substring (n - 4) 4 fn). split.
    + pose proof (substring_split (n - 4) fn ltac:(lia)) as Hs.
      fold n in Hs. replace (n - (n - 4))%nat with 4%nat in Hs by lia.
      symmetry. exact Hs.
    + rewrite lower_substring. exact Heq.
  - intros (stem & ext & -> & Hext). now apply is_dcm_suffix.
Qed.

(** X7: An output name always ends in [.png] and is never itself a candidate:
    the script cannot pick up a file it has written. *)
Theorem out_name_never_candidate (fn : string) :
  Str.endswith (out_name fn) ".png" = true /\ is_dcm (out_name fn) = false.
Proof.
  unfold out_name, is_dcm. split.
  - now rewrite endswith_app.
  - rewrite lower_app. now rewrite endswith_app.
Qed.

Lemma all_dots_no_sep (s : string) (i found : Z) :
  Str.all_dots s = true -> Str.rfind_from s "/" i found = found.
Proof.
  revert i found. induction s as [|c s IH]; intros i found H; simpl in *; [reflexivity|].
  apply andb_prop in H as [Hc Hs]. apply Ascii.eqb_eq in Hc. subst c.
  simpl. now apply IH.
Qed.

Lemma rfind_dot_ext (stem ext : string) :
  Str.lower ext = ".dcm"%string ->
  Str.rfind (stem +:+ ext) "." = Str.len stem /\
  Str.rfind (stem +:+ ext) "/" = Str.rfind stem "/".
Proof.
  intros Hext.
  destruct ext as [|c0 [|c1 [|c2 [|c3 [|c4 ext]]]]]; try discriminate Hext.
  simpl in Hext. injection Hext as H0 H1 H2 H3.
  apply lower_ascii_dot in H0. subst c0.
  destruct (lower_ascii_letter c1 _ H1) as [D1 S1]; [vm_compute; split; congruence|].
  destruct (lower_ascii_letter c2 _ H2) as [D2 S2]; [vm_compute; split; congruence|].
  destruct (lower_ascii_letter c3 _ H3) as [D3 S3]; [vm_compute; split; congruence|].
  unfold Str.rfind. rewrite !rfind_from_app. simpl Str.rfind_from.
  rewrite S1, S2, S3, D1, D2, D3. simpl. split; [lia|reflexivity].
Qed.

(** X8: A candidate whose stem is empty or made of dots only, such as [.dcm],
    has no extension for [os.path.splitext]: [.png] is appended to the whole
    name. *)
Theorem dot_stem_keeps_extension (stem ext : string) :
  Str.lower ext = ".dcm"%string ->
  Str.all_dots stem = true ->
  is_dcm (stem +:+ ext) = true /\
  out_name (stem +:+ ext) = (stem +:+ ext) +:+ ".png".
Proof.
  intros Hext Hstem. split; [now apply is_dcm_suffix|].
  destruct (rfind_dot_ext stem ext Hext) as [Hdot Hsep].
  unfold out_name, Str.splitext. rewrite Hdot, Hsep.
  unfold Str.rfind. rewrite (all_dots_no_sep stem 0 (-1) Hstem).
  assert (Hn : 0 <= Str.len stem) by (unfold Str.len; lia).
  destruct (Z.ltb_spec (-1) (Str.len stem)); [|lia].
  unfold Str.slice.
  replace (Z.to_nat (-1 + 1)) with 0%nat by lia.
  replace (Z.to_nat (Str.len stem - (-1 + 1))) with (String.length stem)
    by (unfold Str.len; lia).
  now rewrite substring_prefix, Hstem.
Qed.

Lemma dot_stem_keeps_extension_witness :
  is_dcm ("." +:+ ".DCM") = true /\
  out_name ("." +:+ ".DCM") = ("." +:+ ".DCM") +:+ ".png".
Proof. apply (dot_stem_keeps_extension "." ".DCM"); reflexivity. Defined.

(** X9: Names that differ only in the case of the extension are written to the
    same path, also inside one directory. *)
Theorem extension_case_collides (dst root1 root2 stem ext1 ext2 : string)
    (d1 d2 : dicom) :
  Str.lower ext1 = ".dcm"%string -> Str.lower ext2 = ".dcm"%string ->
  Str.all_dots stem = false -> Str.rfind stem "/" = -1 ->
  target dst (root1, (stem +:+ ext1, d1)) = Some (Str.join dst (stem +:+ ".png")) /\
  target dst (root2, (stem +:+ ext2, d2)) = Some (Str.join dst (stem +:+ ".png")).
Proof.
  intros H1 H2 Hstem Hsep. unfold target. simpl.
  destruct (out_name_replaces_extension stem ext1 H1 Hstem Hsep) as [-> ->].
  destruct (out_name_replaces_extension stem ext2 H2 Hstem Hsep) as [-> ->].
  auto.
Qed.

Lemma extension_case_collides_witness :
  target "out" ("in", ("scan" +:+ ".dcm", Ok scan_a)) = Some (Str.join "out" ("scan" +:+ ".png")) /\
  target "out" ("in", ("scan" +:+ ".DCM", Ok scan_b)) = Some (Str.join "out" ("scan" +:+ ".png")).
Proof.
  apply (extension_case_collides "out" "in" "in" "scan" ".dcm" ".DCM"); reflexivity.
Defined.

End NameFacts.

(** ** The loops in closed form *)

Section LoopFacts.

Lemma state_eta (st : state) :
  {| files := files st; made := made st; saved := saved st;
     count := count st; stdout := stdout st |} = st.
Proof. now destruct st. Qed.

(** The loop performs the writes of [writes_of], in order, and stops with
    the exception of [first_error]. *)
Lemma loop_as_fold (dst : string) (items : list (string * (string * dicom)))
    (st : state) :
  for_each (convert_item dst) items st =
    finish (first_error items)
      {| files := replay (writes_of dst items) (files st);
         made := made st;
         saved := List.rev (writes_of dst items) ++ saved st;
         count := length (writes_of dst items) + count st;
         stdout := stdout st |}.
Proof.
  revert st. induction items as [|it items IH]; intros st.
  - simpl. now rewrite state_eta.
  - cbn [for_each writes_of first_error].
    destruct (convert_item_cases dst it st)
      as [[Hc E]|[(image & Hc & Hi & E)|(e & Hc & Hi & E)]]; rewrite E, Hc.
    + apply IH.
    + rewrite Hi, IH. simpl. f_equal. f_equal.
      * now rewrite <- List.app_assoc.
      * lia.
    + rewrite Hi. simpl. now rewrite state_eta.
Qed.

Lemma replay_lookup (writes : list (string * ndarray Z)) (m : gmap string (ndarray Z))
    (path : string) :
  replay writes m !! path =
    match last_write path writes with
    | Some image => Some image
    | None => m !! path
    end.
Proof.
  revert m. induction writes as [|[k v] writes IH]; intros m; [reflexivity|].
  unfold replay in *. simpl. rewrite IH.
  destruct (last_write path writes); [reflexivity|].
  destruct (decide (k = path)) as [->|Hne].
  - apply lookup_insert_eq.
  - now apply lookup_insert_ne.
Qed.

Lemma replay_twice (writes : list (string * ndarray Z)) (m : gmap string (ndarray Z)) :
  replay writes (replay writes m) = replay writes m.
Proof.
  apply map_eq. intros path. rewrite !replay_lookup.
  now destruct (last_write path writes).
Qed.

Lemma replay_size (writes : list (string * ndarray Z)) (m : gmap string (ndarray Z)) :
  size (replay writes m) <= size m + length writes.
Proof.
  revert m. induction writes as [|[k v] writes IH]; intros m; simpl; [lia|].
  unfold replay in *. simpl. specialize (IH (<[k:=v]> m)).
  rewrite map_size_insert in IH. destruct (m !! k); simpl in IH; lia.
Qed.

Lemma last_write_some (path : string) (image : ndarray Z)
    (writes : list (string * ndarray Z)) :
  List.In (path, image) writes -> is_Some (last_write path writes).
Proof.
  induction writes as [|[k v] writes IH]; simpl; [tauto|].
  intros [E|Hin].
  - injection E as -> ->. destruct (last_write path writes); [eauto|].
    rewrite decide_True by reflexivity. eauto.
  - destruct (IH Hin) as [x ->]. eauto.
Qed.

Lemma first_error_none (items : list (string * (string * dicom))) :
  forallb can_convert items = true -> first_error items = None.
Proof.
  induction items as [|it items IH]; simpl; [reflexivity|].
  intros H. apply andb_prop in H as [Hit Hall].
  unfold can_convert, candidate in *.
  destruct (is_dcm it.2.1); simpl in *; [|auto].
  destruct (to_image it.2.2); [auto|discriminate].
Qed.

Lemma writes_of_complete (dst : string) (items : list (string * (string * dicom)))
    (it : string * (string * dicom)) :
  forallb can_convert items = true -> List.In it items -> candidate it = true ->
  exists image, to_image it.2.2 = Ok image /\
    List.In (Str.join dst (out_name it.2.1), image) (writes_of dst items).
Proof.
  induction items as [|x items IH]; simpl; [tauto|].
  intros H Hin Hc. apply andb_prop in H as [Hx Hall].
  assert (Hrest : List.In it items ->
            exists image, to_image it.2.2 = Ok image /\
              List.In (Str.join dst (out_name it.2.1), image)
                (if candidate x
                 then match to_image x.2.2 with
                      | Ok image0 => (Str.join dst (out_name x.2.1), image0) :: writes_of dst items
                      | Raise _ => []
                      end
                 else writes_of dst items)).
  { intros Hin'. destruct (IH Hall Hin' Hc) as (image & Hi & Hw).
    exists image. split; [exact Hi|].
    unfold can_convert, candidate in *.
    destruct (is_dcm x.2.1); simpl in *; [|exact Hw].
    destruct (to_image x.2.2); [now right|discriminate]. }
  destruct Hin as [->|Hin]; [|auto].
  unfold can_convert in Hx. rewrite Hc. unfold candidate in Hc. rewrite Hc in Hx.
  simpl in Hx. destruct (to_image it.2.2) as [image|]; [|discriminate].
  exists image. split; [reflexivity|now left].
Qed.

Lemma writes_of_sound (dst : string) (items : list (string * (string * dicom)))
    (path : string) (image : ndarray Z) :
  List.In (path, image) (writes_of dst items) ->
  exists it, List.In it items /\ candidate it = true /\
    to_image it.2.2 = Ok image /\ path = Str.join dst (out_name it.2.1).
Proof.
  induction items as [|x items IH]; simpl; [tauto|].
  destruct (candidate x) eqn:Hc.
  - destruct (to_image x.2.2) as [img|] eqn:Hi; simpl; [|tauto].
    intros [E|Hin].
    + injection E as <- <-. exists x. auto.
    + destruct (IH Hin) as (it & ? & ?). exists it. auto.
  - intros Hin. destruct (IH Hin) as (it & ? & ?). exists it. auto.
Qed.

Lemma writes_of_length (dst : string) (items : list (string * (string * dicom))) :
  forallb can_convert items = true ->
  length (writes_of dst items) = length (List.filter candidate items).
Proof.
  induction items as [|x items IH]; simpl; [reflexivity|].
  intros H. apply andb_prop in H as [Hx Hall].
  unfold can_convert in Hx. unfold candidate at 1 2.
  destruct (is_dcm x.2.1); simpl in *; [|auto].
  destruct (to_image x.2.2); [simpl; auto|discriminate].
Qed.

Lemma for_each_filter_candidate (dst : string)
    (items : list (string * (string * dicom))) (st : state) :
  for_each (convert_item dst) items st =
    for_each (convert_item dst) (List.filter candidate items) st.
Proof.
  revert st. induction items as [|it items IH]; intros st; simpl; [reflexivity|].
  destruct (candidate it) eqn:Hc; simpl.
  - destruct (convert_item dst it st); [apply IH|reflexivity].
  - rewrite (convert_item_skip dst it st Hc). apply IH.
Qed.

(** X10: The final content of any path, in terms of the input: the image of the
    last candidate written to it before the loop ended, or what was there
    before. *)
Theorem final_content_is_last_write (dst : string)
    (walked : list (string * list (string * dicom))) (st : state) (path : string) :
  files (state_of (run dst walked st)) !! path =
    match last_write path (writes_of dst (work walked)) with
    | Some image => Some image
    | None => files st !! path
    end.
Proof.
  rewrite run_work, loop_as_fold.
  destruct (first_error (work walked)); simpl; apply replay_lookup.
Qed.

(** X11: Files that are neither candidates nor decodable never matter: the loops
    behave as if only the candidates were there. *)
Theorem skipped_files_have_no_effect (dst : string)
    (walked : list (string * list (string * dicom))) (st : state) :
  run dst walked st =
    for_each (convert_item dst) (List.filter candidate (work walked)) st.
Proof. rewrite run_work. apply for_each_filter_candidate. Qed.

(** X12: When every candidate converts, the loops complete, the counter grows by
    the number of candidates, and every candidate's output path holds an
    image. *)
Theorem convertible_batch_completes (dst : string)
    (walked : list (string * list (string * dicom))) (st : state) :
  forallb can_convert (work walked) = true ->
  exists st',
    run dst walked st = Done st' /\
    count st' = length (List.filter candidate (work walked)) + count st /\
    forall it, List.In it (work walked) -> candidate it = true ->
      is_Some (files st' !! Str.join dst (out_name it.2.1)).
Proof.
  intros Hall. rewrite run_work, loop_as_fold, (first_error_none _ Hall).
  eexists. split; [reflexivity|]. simpl.
  split; [now rewrite (writes_of_length dst _ Hall)|].
  intros it Hin Hc.
  destruct (writes_of_complete dst _ it Hall Hin Hc) as (image & _ & Hw).
  rewrite replay_lookup.
  destruct (last_write_some _ _ _ Hw) as [x ->]. eauto.
Qed.

Lemma convertible_batch_completes_witness :
  forallb can_convert (work (os_walk "in" (Some locked_tree))) = true /\
  exists st',
    run "out" (os_walk "in" (Some locked_tree))
      (start (world_of "in" (Some locked_tree)) "out") = Done st' /\
    count st' = 2 /\
    is_Some (files st' !! "out/a.png") /\ is_Some (files st' !! "out/B.png").
Proof.
  split; [vm_compute; reflexivity|].
  destruct (convertible_batch_completes "out" (os_walk "in" (Some locked_tree))
              (start (world_of "in" (Some locked_tree)) "out") eq_refl)
    as (st' & Hrun & Hcount & Hall).
  exists st'. split; [exact Hrun|]. split; [exact Hcount|]. split.
  - apply (Hall ("in", ("a.dcm", Ok scan_a))); [simpl; auto|reflexivity].
  - apply (Hall ("in", ("B.DCM", Ok scan_b))); [simpl; auto|reflexivity].
Defined.

End LoopFacts.

(** ** What a run does to the disk *)

Section DiskFacts.

(** The state any run ends in, whatever its outcome. *)
Lemma main_state (argv : list string) (w : world) :
  (state_of (main argv w) = boot w \/
   state_of (main argv w) = print missing_deps (boot w)) \/
  exists src dst (items : list (string * (string * dicom))),
    argv !! 1%nat = Some src /\ argv !! 2%nat = Some dst /\
    items = work (os_walk src (tree_at w src)) /\
    let looped :=
      {| files := replay (writes_of dst items) (files0 w);
         made := [dst];
         saved := List.rev (writes_of dst items);
         count := length (writes_of dst items);
         stdout := [] |} in
    (state_of (main argv w) = looped \/
     state_of (main argv w) = print (summary (count looped) dst) looped).
Proof.
  unfold main.
  destruct (deps_installed w); simpl; [|auto].
  destruct (argv !! 1%nat) as [src|] eqn:H1; [|auto].
  destruct (argv !! 2%nat) as [dst|] eqn:H2; [|auto].
  destruct (makedirs_ok w dst); simpl; [|auto].
  right. exists src, dst, (work (os_walk src (tree_at w src))).
  split; [reflexivity|]. split; [reflexivity|]. split; [reflexivity|].
  rewrite run_work, loop_as_fold. simpl.
  rewrite List.app_nil_r, Nat.add_0_r.
  destruct (first_error _); simpl; auto.
Qed.

Lemma last_write_in (path : string) (image : ndarray Z)
    (writes : list (string * ndarray Z)) :
  last_write path writes = Some image -> List.In (path, image) writes.
Proof.
  induction writes as [|[k v] writes IH]; simpl; [discriminate|].
  destruct (last_write path writes) as [n|].
  - intros E. right. apply IH. exact E.
  - destruct (decide (k = path)) as [->|]; [|discriminate].
    intros E. injection E as ->. now left.
Qed.

(** X13: A run never deletes an image file, whatever its outcome. *)
Theorem no_file_is_deleted (argv : list string) (w : world) (path : string) :
  is_Some (files0 w !! path) ->
  is_Some (files (state_of (main argv w)) !! path).
Proof.
  intros Hsome.
  destruct (main_state argv w) as [[->| ->]|(src & dst & items & _ & _ & _ & H)];
    [exact Hsome..|].
  assert (Hr : is_Some (replay (writes_of dst items) (files0 w) !! path)).
  { rewrite replay_lookup. destruct (last_write path _); eauto. }
  destruct H as [-> | ->]; exact Hr.
Qed.

Lemma no_file_is_deleted_witness :
  let w := rerun (world_of "in" (Some collide_tree))
             (state_of (main argv_in_out (world_of "in" (Some late_corrupt_tree)))) in
  is_Some (files0 w !! "out/a.png") /\
  is_Some (files (state_of (main argv_in_out w)) !! "out/a.png").
Proof.
  intros w.
  assert (H : is_Some (files0 w !! "out/a.png")) by (vm_compute; eauto).
  split; [exact H|]. apply (no_file_is_deleted argv_in_out w "out/a.png" H).
Defined.

(** X14: A path that no candidate of the walk is written to keeps its content,
    whatever the outcome of the run. *)
Theorem untargeted_paths_untouched (argv : list string) (w : world) (path : string) :
  (forall src dst it,
     argv !! 1%nat = Some src -> argv !! 2%nat = Some dst ->
     List.In it (work (os_walk src (tree_at w src))) ->
     target dst it <> Some path) ->
  files (state_of (main argv w)) !! path = files0 w !! path.
Proof.
  intros Hfree.
  destruct (main_state argv w) as [[->| ->]|(src & dst & items & H1 & H2 & -> & H)];
    [reflexivity..|].
  assert (Hr : replay (writes_of dst (work (os_walk src (tree_at w src)))) (files0 w)
                 !! path = files0 w !! path).
  { rewrite replay_lookup.
    destruct (last_write path _) as [image|] eqn:E; [|reflexivity].
    exfalso. apply last_write_in in E as Hin.
    apply writes_of_sound in Hin as (it & Hit & Hc & _ & ->).
    apply (Hfree src dst it H1 H2 Hit).
    unfold target. unfold candidate in Hc. now rewrite Hc. }
  destruct H as [-> | ->]; exact Hr.
Qed.

Lemma untargeted_paths_untouched_witness :
  let w := rerun (world_of "in" (Some collide_tree))
             (state_of (main argv_in_out (world_of "in" (Some late_corrupt_tree)))) in
  files0 w !! "out/a.png" = Some (grid [[0; 126]; [191; 255]]%Z) /\
  files (state_of (main argv_in_out w)) !! "out/a.png" = files0 w !! "out/a.png".
Proof.
  intros w. split; [vm_compute; reflexivity|].
  apply (untargeted_paths_untouched argv_in_out w "out/a.png").
  intros src dst it H1 H2 Hin.
  injection H1 as <-. injection H2 as <-.
  simpl in Hin. destruct Hin as [<-|[<-|[]]]; vm_compute; discriminate.
Defined.

Lemma app_assoc_string (a b c : string) : (a +:+ b) +:+ c = a +:+ (b +:+ c).
Proof.
  induction a as [|x a IH]; rewrite ?app_nil_string, ?app_cons_string; congruence.
Qed.

Lemma join_png (dst name : string) :
  Str.endswith (Str.join dst (name +:+ ".png")) ".png" = true.
Proof.
  unfold Str.join.
  destruct (Str.startswith _ _); [now rewrite endswith_app|].
  destruct (_ || _).
  - rewrite <- app_assoc_string. now rewrite endswith_app.
  - rewrite <- !app_assoc_string. now rewrite endswith_app.
Qed.

(** X15: Every write of a run is the image of a candidate found by the walk, at
    the output root joined with that candidate's output name, a path that
    ends in [.png]. *)
Theorem every_write_is_a_candidate (argv : list string) (w : world)
    (path : string) (image : ndarray Z) :
  List.In (path, image) (saved (state_of (main argv w))) ->
  exists src dst it,
    argv !! 1%nat = Some src /\ argv !! 2%nat = Some dst /\
    List.In it (work (os_walk src (tree_at w src))) /\
    candidate it = true /\
    to_image it.2.2 = Ok image /\
    path = Str.join dst (out_name it.2.1) /\
    Str.endswith path ".png" = true.
Proof.
  intros Hin.
  destruct (main_state argv w) as [[E|E]|(src & dst & items & H1 & H2 & -> & H)].
  - rewrite E in Hin. destruct Hin.
  - rewrite E in Hin. destruct Hin.
  - assert (Hw : List.In (path, image)
                   (writes_of dst (work (os_walk src (tree_at w src))))).
    { apply List.in_rev. destruct H as [E|E]; rewrite E in Hin; exact Hin. }
    apply writes_of_sound in Hw as (it & Hit & Hc & Hi & ->).
    exists src, dst, it. repeat (split; [assumption || reflexivity|]).
    apply join_png.
Qed.

Lemma every_write_is_a_candidate_witness :
  let w := world_of "in" (Some collide_tree) in
  List.In ("out/x.png", grid [[0; 6]; [12; 255]]%Z) (saved (state_of (main argv_in_out w))) /\
  exists src dst it,
    argv_in_out !! 1%nat = Some src /\ argv_in_out !! 2%nat = Some dst /\
    List.In it (work (os_walk src (tree_at w src))) /\
    candidate it = true /\
    to_image it.2.2 = Ok (grid [[0; 6]; [12; 255]]%Z) /\
    "out/x.png"%string = Str.join dst (out_name it.2.1) /\
    Str.endswith "out/x.png" ".png" = true.
Proof.
  intros w.
  assert (H : List.In ("out/x.png"%string, grid [[0; 6]; [12; 255]]%Z)
                (saved (state_of (main argv_in_out w)))) by (vm_compute; auto).
  split; [exact H|]. exact (every_write_is_a_candidate argv_in_out w _ _ H).
Defined.

(** X16: The number of image files grows by at most the final counter: the
    counter counts writes, and colliding names share one file. *)
Theorem files_grow_by_at_most_count (argv : list string) (w : world) :
  size (files (state_of (main argv w)))
    <= size (files0 w) + count (state_of (main argv w)).
Proof.
  destruct (main_state argv w) as [[->| ->]|(src & dst & items & _ & _ & _ & H)];
    [simpl; lia..|].
  pose proof (replay_size (writes_of dst items) (files0 w)) as Hs.
  destruct H as [-> | ->]; simpl; exact Hs.
Qed.

(** X17: Running the script again over the same input, with the files the first
    run left, leaves every file as it is and reports the same count. *)
Theorem second_run_changes_nothing (argv : list string) (w : world) (fin : state) :
  main argv w = Done fin ->
  exists fin',
    main argv (rerun w fin) = Done fin' /\
    files fin' = files fin /\
    count fin' = count fin /\
    stdout fin' = stdout fin.
Proof.
  intros Hmain.
  destruct (main_done argv w fin Hmain) as (src & dst & st & Hd & H1 & H2 & Hm & Hrun & ->).
  rewrite loop_as_fold in Hrun.
  destruct (first_error (work (os_walk src (tree_at w src)))) eqn:Herr;
    [discriminate|]. simpl in Hrun. injection Hrun as Hst.
  rewrite (main_runs argv (rerun w (print (summary (count st) dst) st))
             src dst Hd H1 H2 Hm).
  simpl tree_at. rewrite loop_as_fold, Herr. simpl.
  eexists. split; [reflexivity|]. simpl.
  rewrite <- Hst. simpl.
  rewrite replay_twice, ?List.app_nil_r, ?Nat.add_0_r. auto.
Qed.

Lemma second_run_changes_nothing_witness :
  exists fin fin',
    main argv_in_out (world_of "in" (Some collide_tree)) = Done fin /\
    main argv_in_out (rerun (world_of "in" (Some collide_tree)) fin) = Done fin' /\
    files fin' = files fin /\
    count fin' = count fin /\
    stdout fin' = stdout fin.
Proof.
  eexists.
  assert (H : main argv_in_out (world_of "in" (Some collide_tree)) = Done _)
    by (vm_compute; reflexivity).
  destruct (second_run_changes_nothing _ _ _ H) as (fin' & H').
  exists fin'. split; [exact H|exact H'].
Defined.

Lemma nondirs_app (es1 es2 : list (string * node)) :
  nondirs (es1 ++ es2) = nondirs es1 ++ nondirs es2.
Proof. unfold nondirs. apply List.flat_map_app. Qed.

(** X18: A subdirectory that cannot be listed is skipped without an error: the
    walk is the one of the tree without it, so nothing below it is
    converted and nothing reports it. *)
Theorem unreadable_subdirectory_is_skipped (top name : string)
    (before after below : list (string * node)) :
  walk top (Dir true (before ++ (name, Dir false below) :: after)) =
  walk top (Dir true (before ++ after)).
Proof.
  simpl. f_equal.
  - rewrite !nondirs_app. reflexivity.
  - rewrite !List.map_app, !List.concat_app. reflexivity.
Qed.

(** X19: A run that finds no candidate, however many other files it meets,
    completes with a count of 0 and writes nothing. *)
Theorem no_candidates_no_output (argv : list string) (w : world) (src dst : string) :
  deps_installed w = true ->
  argv !! 1%nat = Some src -> argv !! 2%nat = Some dst ->
  makedirs_ok w dst = true ->
  List.filter candidate (work (os_walk src (tree_at w src))) = [] ->
  main argv w =
    Done {| files := files0 w; made := [dst]; saved := []; count := 0;
            stdout := ["Converted 0 DICOMs to PNG in: " +:+ dst] |}.
Proof.
  intros Hd H1 H2 Hm Hnone.
  rewrite (main_runs argv w src dst Hd H1 H2 Hm).
  now rewrite for_each_filter_candidate, Hnone.
Qed.

Lemma no_candidates_no_output_witness :
  let t := Dir true [("readme.txt", File (Raise InvalidDicomError));
                     ("sub", Dir true [("scan.dcm.bak", File (Ok scan_a))])] in
  List.filter candidate (work (os_walk "in" (tree_at (world_of "in" (Some t)) "in"))) = [] /\
  main argv_in_out (world_of "in" (Some t)) =
    Done {| files := ∅; made := ["out"]; saved := []; count := 0;
            stdout := ["Converted 0 DICOMs to PNG in: out"] |}.
Proof.
  intros t. split; [reflexivity|].
  apply (no_candidates_no_output argv_in_out (world_of "in" (Some t)) "in" "out");
    reflexivity.
Defined.

End DiskFacts.
